(** * Profile-lock reclamation, log administration and auto-start recovery

    A shallow embedding of three pieces of the manager:
    - package [browser]: [cleanupChromeLocks], [removeLockFile],
      [isStaleProfile], [isProcessAlive];
    - package [main], log_admin_handlers.go: [DeleteDebugLogs],
      [DownloadDebugLogs];
    - package [main]: [autoStartUsers].

    Go strings are byte sequences: they are [string] (a list of [ascii]).
    Go's [int] is the 64-bit one.  The operating system is an explicit
    state: a finite map from paths to nodes, the host name, the value of
    [runtime.GOOS], the set of live process ids and the lines logged so far. *)

From Stdlib Require Import ZArith Ascii String List Lia Bool.
From stdpp Require Import base option list strings gmap pretty.

Import ListNotations.
Local Open Scope string_scope.
Local Open Scope Z_scope.

(** ** The Go standard library: package [strings] and [strconv.Atoi] *)

Module GoStrings.

(** [strings.HasPrefix]. *)
Fixpoint HasPrefix (s p : string) : bool :=
  match p, s with
  | EmptyString, _ => true
  | String c p', String d s' => if Ascii.eqb c d then HasPrefix s' p' else false
  | String _ _, EmptyString => false
  end.

(** [strings.Contains s sub]: [sub] occurs in [s] at some byte offset. *)
Fixpoint Contains (s sub : string) : bool :=
  HasPrefix s sub ||
  match s with
  | EmptyString => false
  | String _ s' => Contains s' sub
  end.

(** Appending one byte at the end of a field that is being collected. *)
Definition snoc (s : string) (c : ascii) : string := s ++ String c EmptyString.

(** [strings.Split s sep] for a non-empty separator: the pieces of [s]
    between successive occurrences of [sep], scanned left to right;
    [skip] counts the bytes of a separator that is being stepped over. *)
Fixpoint split_from (sep : string) (skip : nat) (cur s : string) : list string :=
  match s with
  | EmptyString => [cur]
  | String c s' =>
      match skip with
      | S k => split_from sep k cur s'
      | O =>
          if HasPrefix s sep
          then cur :: split_from sep (Nat.pred (String.length sep)) EmptyString s'
          else split_from sep O (snoc cur c) s'
      end
  end.

Definition Split (s sep : string) : list string := split_from sep 0 EmptyString s.

(** [unicode.IsSpace], read on the UTF-8 bytes: the number of bytes of the
    white-space rune [s] starts with, 0 when it starts with none.  The
    runes are U+0009..U+000D, U+0020, U+0085, U+00A0, U+1680,
    U+2000..U+200A, U+2028, U+2029, U+202F, U+205F and U+3000.  Their
    encodings start with a lead byte and continue with continuation
    bytes only, so a byte-wise scan meets them exactly where Go's rune
    decoder does, also in strings that are not valid UTF-8. *)
Definition space_width (s : string) : nat :=
  match s with
  | EmptyString => 0%nat
  | String c s1 =>
      let b := N_of_ascii c in
      if ((9 <=? b) && (b <=? 13))%N || (b =? 32)%N then 1%nat
      else
        match s1 with
        | EmptyString => 0%nat
        | String c1 s2 =>
            let b1 := N_of_ascii c1 in
            if (b =? 194)%N then
              (if (b1 =? 133)%N || (b1 =? 160)%N then 2%nat else 0%nat)
            else
              match s2 with
              | EmptyString => 0%nat
              | String c2 _ =>
                  let b2 := N_of_ascii c2 in
                  if (b =? 225)%N && (b1 =? 154)%N && (b2 =? 128)%N then 3%nat
                  else if (b =? 226)%N && (b1 =? 128)%N &&
                          (((128 <=? b2) && (b2 <=? 138)) ||
                           (b2 =? 168) || (b2 =? 169) || (b2 =? 175))%N then 3%nat
                  else if (b =? 226)%N && (b1 =? 129)%N && (b2 =? 159)%N then 3%nat
                  else if (b =? 227)%N && (b1 =? 128)%N && (b2 =? 128)%N then 3%nat
                  else 0%nat
              end
        end
  end.

(** The same test on a reversed string: the width of the white-space rune
    the original string ends with. *)
Definition space_width_rev (r : string) : nat :=
  match r with
  | EmptyString => 0%nat
  | String c r1 =>
      if (space_width (String c EmptyString) =? 1)%nat then 1%nat
      else
        match r1 with
        | EmptyString => 0%nat
        | String c1 r2 =>
            if (space_width (String c1 (String c EmptyString)) =? 2)%nat then 2%nat
            else
              match r2 with
              | EmptyString => 0%nat
              | String c2 _ =>
                  if (space_width (String c2 (String c1 (String c EmptyString))) =? 3)%nat
                  then 3%nat else 0%nat
              end
        end
  end.

(** [strings.Fields]: the maximal runs of bytes between white space. *)
Definition emit (cur : string) : list string :=
  match cur with EmptyString => [] | _ => [cur] end.

Fixpoint fields_from (skip : nat) (cur s : string) : list string :=
  match s with
  | EmptyString => emit cur
  | String c s' =>
      match skip with
      | S k => fields_from k cur s'
      | O =>
          match space_width s with
          | O => fields_from O (snoc cur c) s'
          | S k => emit cur ++ fields_from k EmptyString s'
          end
      end
  end.

Definition Fields (s : string) : list string := fields_from 0 EmptyString s.

(** [strings.TrimSpace]: white space removed at both ends. *)
Fixpoint trim_left_from (skip : nat) (s : string) : string :=
  match s with
  | EmptyString => EmptyString
  | String _ s' =>
      match skip with
      | S k => trim_left_from k s'
      | O =>
          match space_width s with
          | O => s
          | S k => trim_left_from k s'
          end
      end
  end.

Fixpoint trim_rev_from (skip : nat) (r : string) : string :=
  match r with
  | EmptyString => EmptyString
  | String _ r' =>
      match skip with
      | S k => trim_rev_from k r'
      | O =>
          match space_width_rev r with
          | O => r
          | S k => trim_rev_from k r'
          end
      end
  end.

Definition TrimSpace (s : string) : string :=
  String.rev (trim_rev_from 0 (String.rev (trim_left_from 0 s))).

(** [strconv.Atoi] on a 64-bit platform.  The value is returned with an
    error flag; on a syntax error the value is 0, on a range error it is
    the nearest of the two bounds of [int64]. *)
Definition MaxInt64 : Z := 9223372036854775807.
Definition MinInt64 : Z := -9223372036854775808.

Definition digit (c : ascii) : option Z :=
  let b := Z.of_N (N_of_ascii c) in
  if (48 <=? b) && (b <=? 57) then Some (b - 48) else None.

Fixpoint digits (acc : Z) (s : string) : option Z :=
  match s with
  | EmptyString => Some acc
  | String c s' =>
      match digit c with
      | Some d => digits (acc * 10 + d) s'
      | None => None
      end
  end.

Inductive NumError := ErrSyntax | ErrRange.

Definition Atoi (s : string) : Z * option NumError :=
  let '(neg, body) :=
    match s with
    | String "-" s' => (true, s')
    | String "+" s' => (false, s')
    | _ => (false, s)
    end in
  match body with
  | EmptyString => (0, Some ErrSyntax)
  | _ =>
      match digits 0 body with
      | None => (0, Some ErrSyntax)
      | Some un =>
          if negb neg && (MaxInt64 <? un) then (MaxInt64, Some ErrRange)
          else if neg && (- MinInt64 <? un) then (MinInt64, Some ErrRange)
          else (if neg then - un else un, None)
      end
  end.

End GoStrings.

(** ** The operating system as seen through package [os] *)

Module OS.

(** A cleaned absolute path, as the list of its components: [filepath.Join
    dir name] of a cleaned [dir] and a plain file name adds one component. *)
Abbreviation Path := (list string).

Definition Join (dir : Path) (name : string) : Path := (dir ++ [name])%list.

(** Error numbers returned by the system calls used here. *)
Inductive Errno :=
| ENOENT | EACCES | ENOTDIR | EISDIR | ELOOP | ENOTEMPTY | ENXIO | EBUSY | EINVAL.

(** [os.IsNotExist]. *)
Definition IsNotExist (e : Errno) : bool :=
  match e with ENOENT => true | _ => false end.

(** What the kernel lets a process do with a regular file: read it,
    truncate it by path ([truncate(2)]), open it for writing with
    [O_TRUNC].  The three are independent: a platform may refuse one and
    grant another. *)
Record FilePerm := {
  can_read : bool;
  can_truncate : bool;
  can_open_trunc : bool;
}.

Definition rw : FilePerm :=
  {| can_read := true; can_truncate := true; can_open_trunc := true |}.

Inductive Node :=
| File (perm : FilePerm) (data : string)
| Dir (writable : bool)
| Symlink (target : Path)
| Socket
| NamedPipe.

(** [os.FileMode]: an unsigned 32-bit word, the type bits above the
    permission bits. *)
Definition ModeDir : Z := Z.shiftl 1 31.
Definition ModeSymlink : Z := Z.shiftl 1 27.
Definition ModeDevice : Z := Z.shiftl 1 26.
Definition ModeNamedPipe : Z := Z.shiftl 1 25.
Definition ModeSocket : Z := Z.shiftl 1 24.
Definition ModeCharDevice : Z := Z.shiftl 1 21.
Definition ModeIrregular : Z := Z.shiftl 1 19.
Definition ModeType : Z :=
  Z.lor ModeDir (Z.lor ModeSymlink (Z.lor ModeNamedPipe (Z.lor ModeSocket
    (Z.lor ModeDevice (Z.lor ModeCharDevice ModeIrregular))))).

(** [FileMode.IsRegular]. *)
Definition IsRegular (m : Z) : bool := Z.land m ModeType =? 0.

(** [FileInfo.Mode] of a node, as [os.Lstat] reports it. *)
Definition Mode (n : Node) : Z :=
  match n with
  | File _ _ => 420                       (* 0644 *)
  | Dir _ => Z.lor ModeDir 493            (* 0755 *)
  | Symlink _ => Z.lor ModeSymlink 511    (* 0777 *)
  | Socket => Z.lor ModeSocket 493
  | NamedPipe => Z.lor ModeNamedPipe 420
  end.

Definition Size (n : Node) : Z :=
  match n with
  | File _ data => Z.of_nat (String.length data)
  | _ => 0
  end.

(** One line handed to logrus: level, format and arguments. *)
Inductive Level := DebugLevel | InfoLevel | WarnLevel.
Inductive Arg := AStr (s : string) | APath (p : Path) | AInt (n : Z) | AErr (e : Errno).
Record Entry := { level : Level; format : string; args : list Arg }.

(** The state of the host.  [procs] is the set of process ids that are
    alive; the code never reads it, it is what the claims about liveness
    are measured against. *)
Record World := {
  GOOS : string;
  hostname : Errno + string;
  procs : gset Z;
  fs : gmap Path Node;
  logs : list Entry;
}.

Definition set_fs (w : World) (m : gmap Path Node) : World :=
  {| GOOS := GOOS w; hostname := hostname w; procs := procs w;
     fs := m; logs := logs w |}.

Definition logf (l : Level) (f : string) (a : list Arg) (w : World) : World :=
  {| GOOS := GOOS w; hostname := hostname w; procs := procs w;
     fs := fs w; logs := (logs w ++ [{| level := l; format := f; args := a |}])%list |}.

(** Path resolution.  [walk m cur rest] looks up [cur ++ rest], having
    checked that [cur] is a directory; the root is one always.  A
    symbolic link in the middle of a path is not followed. *)
Fixpoint walk (m : gmap Path Node) (cur rest : Path) : Errno + Node :=
  match rest with
  | [] => inr (Dir true)
  | c :: rest' =>
      match m !! (cur ++ [c])%list with
      | None => inl ENOENT
      | Some n =>
          match rest' with
          | [] => inr n
          | _ :: _ =>
              match n with
              | Dir _ => walk m (cur ++ [c])%list rest'
              | _ => inl ENOTDIR
              end
          end
      end
  end.

(** [os.Lstat]: the node at the path itself. *)
Definition Lstat (m : gmap Path Node) (p : Path) : Errno + Node := walk m [] p.

(** Following symbolic links on the last component, at most [fuel] times
    (the kernel gives up with ELOOP after 40). *)
Fixpoint follow (fuel : nat) (m : gmap Path Node) (p : Path) : Errno + Node :=
  match Lstat m p with
  | inl e => inl e
  | inr (Symlink t) =>
      match fuel with
      | O => inl ELOOP
      | S k => follow k m t
      end
  | inr n => inr n
  end.

(** [os.Stat]. *)
Definition Stat (m : gmap Path Node) (p : Path) : Errno + Node := follow 40 m p.

(** [os.ReadFile]. *)
Definition ReadFile (m : gmap Path Node) (p : Path) : Errno + string :=
  match Stat m p with
  | inl e => inl e
  | inr (File perm data) => if can_read perm then inr data else inl EACCES
  | inr (Dir _) => inl EISDIR
  | inr _ => inl ENXIO
  end.

(** The directory a path lies in. *)
Definition parent (p : Path) : Path := removelast p.

Definition has_child (m : gmap Path Node) (p : Path) : bool :=
  existsb (fun q => bool_decide (parent q = p ∧ q ≠ [])) (map fst (map_to_list m)).

(** [os.Remove]: unlink a file, or remove an empty directory; the
    directory the name lies in must be writable. *)
Definition Remove (m : gmap Path Node) (p : Path) : Errno + gmap Path Node :=
  match p with
  | [] => inl EBUSY
  | _ :: _ =>
      match Lstat m p with
      | inl e => inl e
      | inr n =>
          match Lstat m (parent p) with
          | inr (Dir true) =>
              match n with
              | Dir _ => if has_child m p then inl ENOTEMPTY else inr (delete p m)
              | _ => inr (delete p m)
              end
          | _ => inl EACCES
          end
      end
  end.

(** [os.MkdirAll]: nothing to do when the path is a directory; otherwise
    the missing directories are made from the root down. *)
Fixpoint mkdir_from (m : gmap Path Node) (cur rest : Path) : Errno + gmap Path Node :=
  match rest with
  | [] => inr m
  | c :: rest' =>
      match m !! (cur ++ [c])%list with
      | Some (Dir _) => mkdir_from m (cur ++ [c])%list rest'
      | Some _ => inl ENOTDIR
      | None =>
          match Lstat m cur with
          | inr (Dir true) => mkdir_from (<[(cur ++ [c])%list := Dir true]> m) (cur ++ [c])%list rest'
          | _ => inl EACCES
          end
      end
  end.

Definition MkdirAll (m : gmap Path Node) (p : Path) : Errno + gmap Path Node :=
  match Stat m p with
  | inr (Dir _) => inr m
  | inr _ => inl ENOTDIR
  | inl _ => mkdir_from m [] p
  end.

(** [os.Truncate name 0] and [os.OpenFile name (O_WRONLY|O_TRUNC)]
    followed by [Close]: both leave an empty file behind when the kernel
    grants them. *)
Definition put_empty (m : gmap Path Node) (p : Path) (perm : FilePerm) :=
  <[p := File perm EmptyString]> m.

Fixpoint resolve (fuel : nat) (m : gmap Path Node) (p : Path) : Errno + Path :=
  match Lstat m p with
  | inl e => inl e
  | inr (Symlink t) =>
      match fuel with
      | O => inl ELOOP
      | S k => resolve k m t
      end
  | inr _ => inr p
  end.

Definition Truncate0 (m : gmap Path Node) (p : Path) : Errno + gmap Path Node :=
  match resolve 40 m p with
  | inl e => inl e
  | inr q =>
      match Lstat m q with
      | inr (File perm _) => if can_truncate perm then inr (put_empty m q perm) else inl EACCES
      | inr (Dir _) => inl EISDIR
      | inr _ => inl EINVAL
      | inl e => inl e
      end
  end.

Definition OpenTrunc (m : gmap Path Node) (p : Path) : Errno + gmap Path Node :=
  match resolve 40 m p with
  | inl e => inl e
  | inr q =>
      match Lstat m q with
      | inr (File perm _) => if can_open_trunc perm then inr (put_empty m q perm) else inl EACCES
      | inr (Dir _) => inl EISDIR
      | inr _ => inl ENXIO
      | inl e => inl e
      end
  end.

End OS.

(** ** Package [browser]: reclaiming the lock files of a profile *)

Module browser.
Import GoStrings OS.

(** The one-byte string ["\x00"]. *)
Definition NUL : string := String "000"%char EmptyString.

(** [len(parts) >= n] followed by [parts[i]]; an index is read only under
    its guard, so the default of [nth] is never returned. *)
Definition at_index (parts : list string) (i : nat) : string := nth i parts EmptyString.

(** Lines 215-237 of [isStaleProfile]: the host name and the process id
    read from the content of SingletonCookie.  Both start at Go's zero
    values, [""] and [0]; the error of [strconv.Atoi] is dropped. *)
Definition parseCookie (content : string) : string * Z :=
  if Contains content NUL then
    let parts := Split content NUL in
    let hostname := if (1 <=? length parts)%nat then at_index parts 0 else EmptyString in
    let pid := if (2 <=? length parts)%nat then fst (Atoi (at_index parts 1)) else 0 in
    (hostname, pid)
  else
    let parts := Fields (TrimSpace content) in
    let hostname := if (1 <=? length parts)%nat then at_index parts 0 else EmptyString in
    let pid :=
      if (2 <=? length parts)%nat
      then fst (Atoi (at_index parts (length parts - 1))) else 0 in
    (hostname, pid).

(** [fmt.Sprintf("/proc/%d", pid)]. *)
Definition procPath (pid : Z) : Path := ["proc"; pretty pid].

(** [isProcessAlive]. *)
Definition isProcessAlive (pid : Z) (w : World) : bool :=
  if String.eqb (GOOS w) "windows" then false
  else
    match Stat (fs w) (procPath pid) with
    | inr _ => true
    | inl _ => false
    end.

(** [isStaleProfile]: the verdict, and the world with the lines logged. *)
Definition isStaleProfile (userDataDir : Path) (w : World) : bool * World :=
  let cookiePath := Join userDataDir "SingletonCookie" in
  match ReadFile (fs w) cookiePath with
  | inl err =>
      if IsNotExist err then (true, w)
      else (true, logf WarnLevel "failed to read SingletonCookie: %v" [AErr err] w)
  | inr content =>
      if String.eqb content EmptyString then (true, w)
      else
        let '(hostname, pid) := parseCookie content in
        match OS.hostname w with
        | inl err => (true, logf WarnLevel "failed to get hostname: %v" [AErr err] w)
        | inr currentHostname =>
            if negb (String.eqb hostname EmptyString)
               && negb (String.eqb hostname currentHostname)
            then
              (true,
               logf InfoLevel
                 "stale profile detected: hostname mismatch (cookie=%s, current=%s)"
                 [AStr hostname; AStr currentHostname] w)
            else if 0 <? pid then
              if negb (isProcessAlive pid w)
              then
                (true,
                 logf InfoLevel "stale profile detected: pid %d is not alive" [AInt pid] w)
              else
                (false,
                 logf WarnLevel "profile may be in use: pid %d is alive on same host"
                   [AInt pid] w)
            else (true, w)
        end
  end.

(** The test of line 184 on the mode reported by [os.Lstat]. *)
Definition removable (m : Z) : bool :=
  negb (Z.land m ModeSymlink =? 0) || IsRegular m || negb (Z.land m ModeSocket =? 0).

(** [removeLockFile]. *)
Definition removeLockFile (path : Path) (w : World) : World :=
  match Lstat (fs w) path with
  | inl err =>
      if IsNotExist err then w
      else logf WarnLevel "failed to stat %s: %v" [APath path; AErr err] w
  | inr info =>
      if removable (Mode info) then
        match Remove (fs w) path with
        | inl err => logf WarnLevel "failed to remove %s: %v" [APath path; AErr err] w
        | inr m => logf InfoLevel "cleaned up stale lock: %s" [APath path] (set_fs w m)
        end
      else w
  end.

Definition lockFiles : list string :=
  ["SingletonLock"; "SingletonSocket"; "SingletonCookie"].

(** [for _, name := range lockFiles { removeLockFile(filepath.Join(dir, name)) }] *)
Definition removeLockFiles (dir : Path) (w : World) : World :=
  fold_left (fun w name => removeLockFile (Join dir name) w) lockFiles w.

(** [cleanupChromeLocks]. *)
Definition cleanupChromeLocks (userDataDir : Path) (w : World) : World :=
  match MkdirAll (fs w) userDataDir with
  | inl err => logf WarnLevel "failed to create user data dir: %v" [AErr err] w
  | inr m =>
      let w1 := set_fs w m in
      let '(stale, w2) := isStaleProfile userDataDir w1 in
      if negb stale
      then logf DebugLevel "profile appears to be in active use, skip cleanup" [] w2
      else
        let w3 := removeLockFiles userDataDir w2 in
        let defaultDir := Join userDataDir "Default" in
        match Stat (fs w3) defaultDir with
        | inr _ => removeLockFiles defaultDir w3
        | inl _ => w3
        end
  end.

(** The six paths reclamation names. *)
Definition lockPaths (userDataDir : Path) : list Path :=
  (map (Join userDataDir) lockFiles ++ map (Join (Join userDataDir "Default")) lockFiles)%list.

(** *** Vocabulary of the claims about reclamation *)

(** A lock artifact: a regular file, a symbolic link or a socket. *)
Definition lock_kind (n : Node) : bool :=
  match n with
  | File _ _ | Symlink _ | Socket => true
  | Dir _ | NamedPipe => false
  end.

(** No lock artifact is to be found at the path. *)
Definition no_artifact (m : gmap Path Node) (p : Path) : Prop :=
  ∀ n, Lstat m p = inr n → lock_kind n = false.

Definition remove_failed (p : Path) (e : Errno) : Entry :=
  {| level := WarnLevel; format := "failed to remove %s: %v"; args := [APath p; AErr e] |}.

(** The line was logged on the way from [w] to [w']. *)
Definition logged_since (w w' : World) (x : Entry) : Prop :=
  ∃ new, logs w' = (logs w ++ new)%list ∧ x ∈ new.

(** The name has been deleted: nothing that reclamation deletes is left
    at the path, or [os.Remove] failed there and the failure was logged. *)
Definition reclaimed (w w' : World) (p : Path) : Prop :=
  no_artifact (fs w') p ∨ ∃ e, logged_since w w' (remove_failed p e).

(** A host whose /proc has an entry for a process id exactly when that
    process is alive (Linux with procfs mounted). *)
Definition procfs (w : World) : Prop :=
  ∀ pid, pid ∈ procs w ↔ ∃ n, Stat (fs w) (procPath pid) = inr n.




Definition hostname_mismatch (host cur : string) : Entry :=
  {| level := InfoLevel;
     format := "stale profile detected: hostname mismatch (cookie=%s, current=%s)";
     args := [AStr host; AStr cur] |}.

(** [m'] is [m] with some lock artifacts among [S] taken out. *)
Definition shrink (S : list Path) (m m' : gmap Path Node) : Prop :=
  ∀ q, m' !! q = m !! q ∨
       (q ∈ S ∧ m' !! q = None ∧ ∃ n, m !! q = Some n ∧ lock_kind n = true).

(** The log only grows, and nothing but the file system and the log changes. *)
Definition extends (w w' : World) : Prop :=
  GOOS w' = GOOS w ∧ hostname w' = hostname w ∧ procs w' = procs w ∧
  ∃ new, logs w' = (logs w ++ new)%list.

Definition may_be_in_use (pid : Z) : Entry :=
  {| level := WarnLevel;
     format := "profile may be in use: pid %d is alive on same host";
     args := [AInt pid] |}.

Definition skip_cleanup : Entry :=
  {| level := DebugLevel;
     format := "profile appears to be in active use, skip cleanup";
     args := [] |}.

End browser.

(** ** Concrete hosts used to run the definitions *)

Module Hosts.
Import GoStrings OS browser.

Definition profile : Path := ["data"; "u1"].

(** The content ["host\x00pid\x00"]. *)
Definition cookie (host pid : string) : string := host ++ NUL ++ pid ++ NUL.

(** A profile left behind by process 4242: the cookie, the lock (a
    symbolic link) and the socket; [proc] tells whether /proc/4242 is there. *)
Definition disk (content : string) (proc : bool) : gmap Path Node :=
  list_to_map
    ([ (["data"], Dir true);
       (profile, Dir true);
       (Join profile "SingletonCookie", File rw content);
       (Join profile "SingletonLock", Symlink ["host-a-4242"]);
       (Join profile "SingletonSocket", Socket) ] ++
     (if proc then [ (["proc"], Dir false); (["proc"; "4242"], Dir false) ] else []))%list.

(** Process 4242 is alive on each of these hosts. *)
Definition linux (content : string) : World :=
  {| GOOS := "linux"; hostname := inr "host-a"; procs := {[ 4242 ]};
     fs := disk content true; logs := [] |}.

Definition windows (content : string) : World :=
  {| GOOS := "windows"; hostname := inr "host-a"; procs := {[ 4242 ]};
     fs := disk content false; logs := [] |}.


(** A host on which [os.Hostname] fails. *)
Definition nameless (content : string) : World :=
  {| GOOS := "linux"; hostname := inl EINVAL; procs := {[ 4242 ]};
     fs := disk content true; logs := [] |}.

(** The same disk with nothing left in the profile directory. *)
Definition clean_disk (proc : bool) : gmap Path Node :=
  list_to_map
    ([ (["data"], Dir true); (profile, Dir true) ] ++
     (if proc then [ (["proc"], Dir false); (["proc"; "4242"], Dir false) ] else []))%list.



End Hosts.

(** ** Package [io]: [io.CopyN] from an open file to a connection *)

Module GoIO.

(** An open file whose content other processes change while it is read:
    [file_at k] is the content the [k]-th call of [Read] finds.  A
    connection that takes [conn_limit] bytes in all and then fails
    ([None]: it never fails). *)
Record Transfer := {
  file_at : nat → list ascii;
  read_error : option OS.Errno;
  conn_limit : option nat;
}.

Inductive CopyError := ErrRead (e : OS.Errno) | ErrWrite | EOF.

(** [File.Read] into a buffer of [len] bytes at offset [off]: the
    bytes that are there, [(0, io.EOF)] when there are none. *)
Definition file_read (content : list ascii) (off len : nat) : list ascii :=
  take len (drop off content).

Definition accepts (limit : option nat) (total : nat) : bool :=
  match limit with
  | None => true
  | Some l => (total <=? l)%nat
  end.

(** The loop of [io.Copy] over [io.LimitReader(f, n)]: [k] reads were
    made, the file offset is [off], the limited reader has [N] bytes
    left, [written] went out.  [None]: the loop was cut short by [fuel]. *)
Fixpoint copy_loop (fuel : nat) (t : Transfer) (bufsize k off N : nat)
    (written : list ascii) : option (list ascii * option CopyError) :=
  match fuel with
  | O => None
  | S fuel' =>
      if (N =? 0)%nat then Some (written, None)
      else
        match read_error t with
        | Some e => Some (written, Some (ErrRead e))
        | None =>
            let chunk := file_read (file_at t k) off (Nat.min bufsize N) in
            let nr := length chunk in
            if (nr =? 0)%nat then Some (written, None)
            else if accepts (conn_limit t) (length written + nr)
            then copy_loop fuel' t bufsize (S k) (off + nr) (N - nr)
                   (written ++ chunk)%list
            else Some (written, Some ErrWrite)
        end
  end.

Definition copy_buffer : nat := Z.to_nat 32768.

(** [io.CopyN(dst, src, n)]: the buffer is of 32 KiB, or of [n] bytes when
    that is less (of one byte when [n < 1]); fewer than [n] bytes copied
    without an error is [io.EOF]. *)

Definition CopyN (t : Transfer) (n : Z) : option (list ascii * option CopyError) :=
  let N := Z.to_nat n in
  let bufsize :=
    if (N <? copy_buffer)%nat then (if (N <? 1)%nat then 1%nat else N) else copy_buffer in
  match copy_loop (S N) t bufsize 0 0 N [] with
  | None => None
  | Some (written, err) =>
      if (length written =? N)%nat then Some (written, None)
      else
        match err with
        | None => Some (written, Some EOF)
        | Some e => Some (written, Some e)
        end
  end.

End GoIO.

(** ** Package [main]: the log handlers and auto-start *)

Module manager.
Import GoStrings OS GoIO.

(** The double quote and the line feed, for the strings that contain one. *)
Definition dquote : string := String (ascii_of_nat 34) EmptyString.
Definition nl : string := String (ascii_of_nat 10) EmptyString.

(** The part of the store and of the process manager the code below
    calls.  Neither is defined in the files at hand: they are taken as
    they come, a record of what each method returns. *)
Record UserConfig := { ID : string; Port : Z; AutoStart : bool }.
Record Config := { Headless : bool }.
Record WorkerPaths := { LogFile : Path }.
Record ProcessStatus := { Running : bool }.

Record Store := {
  GetConfig : Config;
  ResolveBinPath : string;
  ResolveDataDir : string;
  ListUsers : list UserConfig;
  GetUser : string → option UserConfig;
}.

Record ProcessManager := {
  DerivePaths : string → string → Z → WorkerPaths;
  GetStatus : string → ProcessStatus;
}.

Record App := { store : Store; proc : ProcessManager }.

(** [gin.H] and what a handler leaves in its [gin.Context]. *)
Inductive JSON :=
| JBool (b : bool)
| JString (s : string)
| JPath (p : Path)
| JSprintf (format : string) (args : list Arg).

Record Context := {
  status : Z;
  header : gmap string string;
  json : option (gmap string JSON);
  body : list ascii;
  errors : list CopyError;
  flushed : bool;
}.

Definition fresh : Context :=
  {| status := 0; header := ∅; json := None; body := []; errors := []; flushed := false |}.

Definition StatusOK : Z := 200.
Definition StatusBadRequest : Z := 400.
Definition StatusNotFound : Z := 404.
Definition StatusConflict : Z := 409.
Definition StatusInternalServerError : Z := 500.

(** [c.JSON(code, obj)]. *)
Definition c_JSON (code : Z) (obj : list (string * JSON)) (c : Context) : Context :=
  {| status := code; header := header c; json := Some (list_to_map obj);
     body := body c; errors := errors c; flushed := flushed c |}.

(** [c.Header(key, value)]. *)
Definition c_Header (key value : string) (c : Context) : Context :=
  {| status := status c; header := <[key := value]> (header c); json := json c;
     body := body c; errors := errors c; flushed := flushed c |}.

(** [c.Status(code)]. *)
Definition c_Status (code : Z) (c : Context) : Context :=
  {| status := code; header := header c; json := json c;
     body := body c; errors := errors c; flushed := flushed c |}.

Definition c_Write (bytes : list ascii) (c : Context) : Context :=
  {| status := status c; header := header c; json := json c;
     body := (body c ++ bytes)%list; errors := errors c; flushed := flushed c |}.

(** [c.Error(err)]. *)
Definition c_Error (e : CopyError) (c : Context) : Context :=
  {| status := status c; header := header c; json := json c;
     body := body c; errors := (errors c ++ [e])%list; flushed := flushed c |}.

Definition c_Flush (c : Context) : Context :=
  {| status := status c; header := header c; json := json c;
     body := body c; errors := errors c; flushed := true |}.

Definition cleared (logFile : Path) (message : string) : list (string * JSON) :=
  [("cleared", JBool true); ("log_file", JPath logFile); ("message", JString message)].

(** [DeleteDebugLogs]: the response and the world it leaves.  [param] is
    [c.Param("id")].  The status read at lines 100-103 is not used there:
    the branch is empty. *)
Definition DeleteDebugLogs (a : App) (param : string) (w : World) : Context * World :=
  let id := TrimSpace param in
  if String.eqb id EmptyString
  then (c_JSON StatusBadRequest [("error", JString "id 不能为空")] fresh, w)
  else
    match GetUser (store a) id with
    | None => (c_JSON StatusNotFound [("error", JString "用户不存在")] fresh, w)
    | Some user =>
        let dataDir := ResolveDataDir (store a) in
        let paths := DerivePaths (proc a) dataDir id (Port user) in
        let missing :=
          match Stat (fs w) (LogFile paths) with
          | inl err => IsNotExist err
          | inr _ => false
          end in
        if missing
        then (c_JSON StatusOK (cleared (LogFile paths) "日志文件不存在，无需清空") fresh, w)
        else
          match Truncate0 (fs w) (LogFile paths) with
          | inr m => (c_JSON StatusOK (cleared (LogFile paths) "日志已清空") fresh, set_fs w m)
          | inl err =>
              match OpenTrunc (fs w) (LogFile paths) with
              | inr m =>
                  (c_JSON StatusOK (cleared (LogFile paths) "日志已清空") fresh, set_fs w m)
              | inl openErr =>
                  if Running (GetStatus (proc a) id)
                  then
                    (c_JSON StatusConflict
                       [("error", JString "用户进程运行中，日志文件被占用");
                        ("message", JString "请先停止用户进程后重试")] fresh, w)
                  else
                    (c_JSON StatusInternalServerError
                       [("error", JSprintf "清空日志失败: %v" [AErr err])] fresh, w)
              end
          end
    end.

(** [os.Open]: the node the path leads to, when it can be opened for
    reading. *)
Definition Open (m : gmap Path Node) (p : Path) : Errno + Node :=
  match Stat m p with
  | inl e => inl e
  | inr (File perm data) => if can_read perm then inr (File perm data) else inl EACCES
  | inr (Dir b) => inr (Dir b)
  | inr _ => inl ENXIO
  end.

(** [filepath.Base] of a cleaned absolute path. *)
Definition Base (p : Path) : string := List.last p "/".

(** What the handler meets after [os.Open]: the answer of [f.Stat] (the
    error, or the time of last change as [http.TimeFormat] prints it)
    and the transfer. *)
Record Download := {
  fstat : Errno + string;
  transfer : Transfer;
}.

(** [DownloadDebugLogs].  The content of the file when [f.Stat] is
    called is the one in [w]; [None]: the copy did not come to an end. *)
Definition DownloadDebugLogs (a : App) (param : string) (w : World) (d : Download)
    : option Context :=
  let id := TrimSpace param in
  if String.eqb id EmptyString
  then Some (c_JSON StatusBadRequest [("error", JString "id 不能为空")] fresh)
  else
    match GetUser (store a) id with
    | None => Some (c_JSON StatusNotFound [("error", JString "用户不存在")] fresh)
    | Some user =>
        let dataDir := ResolveDataDir (store a) in
        let paths := DerivePaths (proc a) dataDir id (Port user) in
        match Open (fs w) (LogFile paths) with
        | inl err =>
            if IsNotExist err
            then Some (c_JSON StatusNotFound [("error", JString "日志文件不存在")] fresh)
            else Some (c_JSON StatusInternalServerError
                         [("error", JSprintf "打开日志文件失败: %v" [AErr err])] fresh)
        | inr f =>
            match fstat d with
            | inl err =>
                Some (c_JSON StatusInternalServerError
                        [("error", JSprintf "读取日志文件状态失败: %v" [AErr err])] fresh)
            | inr modTime =>
                let filename := Base (LogFile paths) in
                let filename :=
                  if String.eqb filename EmptyString || String.eqb filename "."
                  then id ++ ".log" else filename in
                let fileSize := Size f in
                let c := c_Header "Content-Type" "text/plain; charset=utf-8" fresh in
                let c := c_Header "Content-Disposition"
                           ("attachment; filename=" ++ dquote ++ filename ++ dquote) c in
                let c := c_Header "Content-Length" (pretty fileSize) c in
                let c := c_Header "Last-Modified" modTime c in
                let c := c_Status StatusOK c in
                match CopyN (transfer d) fileSize with
                | None => None
                | Some (written, err) =>
                    let c := c_Write written c in
                    match err with
                    | Some EOF | None => Some (c_Flush c)
                    | Some e => Some (c_Error e c)
                    end
                end
            end
        end
    end.

(** What [autoStartUsers] does that can be seen from outside: lines
    printed, and calls of [proc.StartUser] with the time-out of the
    context (in seconds) and the parameters. *)
Record StartUserParams := {
  User : UserConfig;
  BinPath : string;
  Headless_ : bool;
  DataDir : string;
}.

Inductive StartError := StartFailed (reason : string).

Inductive Event :=
| Printf (format : string) (args : list Arg)
| Fprintf_Stderr (format : string) (args : list Arg) (err : StartError)
| StartUser (timeout : Z) (params : StartUserParams).

(** [proc.StartUser], whose code is not at hand: its answer may depend on
    all that happened before. *)
Definition StartUserFn : Type := list Event → StartUserParams → option StartError.

Definition paramsOf (s : Store) (u : UserConfig) : StartUserParams :=
  {| User := u; BinPath := ResolveBinPath s;
     Headless_ := Headless (GetConfig s); DataDir := ResolveDataDir s |}.

(** The loop of lines 408-412. *)
Definition selectAutoStart (users : list UserConfig) : list UserConfig :=
  fold_left (fun toStart u => if AutoStart u then (toStart ++ [u])%list else toStart) users [].

Definition startOne (s : Store) (start : StartUserFn) (trace : list Event) (u : UserConfig)
    : list Event :=
  let params := paramsOf s u in
  let err := start trace params in
  let trace := (trace ++ [StartUser 45 params])%list in
  match err with
  | Some e => (trace ++ [Fprintf_Stderr ("auto-start %s 失败: %v" ++ nl) [AStr (ID u)] e])%list
  | None => (trace ++ [Printf ("auto-start %s 成功" ++ nl) [AStr (ID u)]])%list
  end.

(** [autoStartUsers]. *)
Definition autoStartUsers (s : Store) (start : StartUserFn) : list Event :=
  let toStart := selectAutoStart (ListUsers s) in
  if (length toStart =? 0)%nat then []
  else
    let trace :=
      [Printf ("auto-start: 发现 %d 个需要自动启动的用户" ++ nl) [AInt (Z.of_nat (length toStart))]] in
    fold_left (startOne s start) toStart trace.

(** *** Vocabulary of the claims about the log handlers *)


Definition log_cleared (c : Context) (logFile : Path) : Prop :=
  status c = 200 ∧
  json c = Some (list_to_map (cleared logFile "日志已清空")).



(** The log file of a user, as the handlers derive it. *)
Definition logFileOf (a : App) (id : string) (user : UserConfig) : Path :=
  LogFile (DerivePaths (proc a) (ResolveDataDir (store a)) id (Port user)).

(** *** Vocabulary of the claims about auto-start *)

(** The calls of [proc.StartUser] in a trace, in order. *)
Definition starts (trace : list Event) : list (Z * StartUserParams) :=
  omap (fun e => match e with StartUser t p => Some (t, p) | _ => None end) trace.

Definition found (n : nat) : Event :=
  Printf ("auto-start: 发现 %d 个需要自动启动的用户" ++ nl) [AInt (Z.of_nat n)].

(** One attempt: the call, then the line that tells how it went. *)
Definition attempt (s : Store) (u : UserConfig) (r : option StartError) : list Event :=
  [ StartUser 45 (paramsOf s u);
    match r with
    | Some e => Fprintf_Stderr ("auto-start %s 失败: %v" ++ nl) [AStr (ID u)] e
    | None => Printf ("auto-start %s 成功" ++ nl) [AStr (ID u)]
    end ].

(** The answers [proc.StartUser] gives along a run over [us] that starts
    after [trace]. *)
Fixpoint answers (s : Store) (start : StartUserFn) (trace : list Event)
    (us : list UserConfig) : list (option StartError) :=
  match us with
  | [] => []
  | u :: us' =>
      let r := start trace (paramsOf s u) in
      r :: answers s start (trace ++ attempt s u r)%list us'
  end.

End manager.

(** ** A manager with three users, used to run the definitions *)

Module Fleet.
Import GoStrings OS GoIO manager.

Definition alice : UserConfig := {| ID := "alice"; Port := 18061; AutoStart := true |}.
Definition bob : UserConfig := {| ID := "bob"; Port := 18062; AutoStart := false |}.
Definition carol : UserConfig := {| ID := "carol"; Port := 18063; AutoStart := true |}.

Definition users : list UserConfig := [alice; bob; carol].

Definition the_store : Store :=
  {| GetConfig := {| Headless := true |};
     ResolveBinPath := "/usr/local/bin/xiaohongshu-mcp";
     ResolveDataDir := "/data";
     ListUsers := users;
     GetUser := fun id => List.find (fun u => String.eqb (ID u) id) users |}.

Definition logOf (id : string) : Path := ["data"; id; "server.log"].

(** A manager whose workers are running or not, as [running] says. *)
Definition app (running : bool) : App :=
  {| store := the_store;
     proc := {| DerivePaths := fun _ id _ => {| LogFile := logOf id |};
                GetStatus := fun _ => {| Running := running |} |} |}.

(** A disk with the log of alice, under the given permissions. *)
Definition log_disk (perm : FilePerm) (data : string) : gmap Path Node :=
  list_to_map
    [ (["data"], Dir true); (["data"; "alice"], Dir true);
      (logOf "alice", File perm data) ].

Definition host (m : gmap Path Node) : World :=
  {| GOOS := "linux"; hostname := inr "host-a"; procs := ∅; fs := m; logs := [] |}.


(** A worker that appends 500 bytes to its log before every read, over
    a connection that takes everything. *)
Definition growing (data : string) : Download :=
  {| fstat := inr "Sat, 31 Oct 2026 00:00:00 GMT";
     transfer :=
       {| file_at := fun k => (list_ascii_of_string data ++ repeat "x"%char (500 * S k))%list;
          read_error := None;
          conn_limit := None |} |}.

(** The log is emptied before the first read, and grows again later. *)
Definition emptied : Download :=
  {| fstat := inr "Sat, 31 Oct 2026 00:00:00 GMT";
     transfer :=
       {| file_at := fun k => repeat "y"%char (3 * k);
          read_error := None;
          conn_limit := None |} |}.

(** The file stays as it is and the connection breaks after [l] bytes. *)
Definition limited (data : string) (l : nat) : Download :=
  {| fstat := inr "Sat, 31 Oct 2026 00:00:00 GMT";
     transfer :=
       {| file_at := fun _ => list_ascii_of_string data;
          read_error := None;
          conn_limit := Some l |} |}.

(** [proc.StartUser] fails for alice and works for everyone else. *)
Definition alice_fails : StartUserFn :=
  fun _ p => if String.eqb (ID (User p)) "alice"
             then Some (StartFailed "port in use") else None.

End Fleet.

(** ** Package [main]: the overview of the logs *)

Module overview.
Import GoStrings OS GoIO manager.

(** [LogOverviewItem] and [LogsOverviewResponse].  The fields [LogFile]
    and [DataDir] are named [ItemLogFile] and [OverviewDataDir] here,
    the plain names being those of [WorkerPaths] and [StartUserParams]. *)
Record LogOverviewItem := {
  UserID : string;
  ItemLogFile : Path;
  Exists : bool;
  SizeBytes : Z;
  Mtime : string;
}.

Record LogsOverviewResponse := {
  OverviewDataDir : string;
  Total : Z;
  Items : list LogOverviewItem;
}.

(** The body of the loop of [ListLogs] for one user.  The nodes carry no
    time of last change: [clock] gives it for the file a path leads to,
    as [time.RFC3339] prints it. *)
Definition overviewItem (a : App) (w : World) (clock : Path → string) (dataDir : string)
    (u : UserConfig) : LogOverviewItem :=
  let paths := DerivePaths (proc a) dataDir (ID u) (Port u) in
  let item :=
    {| UserID := ID u; ItemLogFile := LogFile paths;
       Exists := false; SizeBytes := 0; Mtime := EmptyString |} in
  match Stat (fs w) (LogFile paths) with
  | inl err =>
      if IsNotExist err then item
      else {| UserID := UserID item; ItemLogFile := ItemLogFile item;
              Exists := false; SizeBytes := SizeBytes item; Mtime := Mtime item |}
  | inr stat =>
      {| UserID := UserID item; ItemLogFile := ItemLogFile item;
         Exists := true; SizeBytes := Size stat; Mtime := clock (LogFile paths) |}
  end.

(** [ListLogs]: the status and the object handed to [c.JSON]. *)
Definition ListLogs (a : App) (w : World) (clock : Path → string)
    : Z * LogsOverviewResponse :=
  let dataDir := ResolveDataDir (store a) in
  let users := ListUsers (store a) in
  let items :=
    fold_left (fun items u => (items ++ [overviewItem a w clock dataDir u])%list) users [] in
  (StatusOK,
   {| OverviewDataDir := dataDir; Total := Z.of_nat (length items); Items := items |}).

End overview.

(** ** Vocabulary of the further properties *)

Module Vocabulary.
Import GoStrings OS GoIO browser manager.

(** No byte of [s] is the NUL byte. *)
Definition nul_free (s : string) : Prop := Contains s NUL = false.

(** The user ids named on the standard error, in order. *)
Definition failed_ids (trace : list Event) : list string :=
  omap (fun e => match e with
                 | Fprintf_Stderr _ [AStr id] _ => Some id
                 | _ => None
                 end) trace.

(** The users among [us] whose start was answered with an error. *)
Fixpoint failing (us : list UserConfig) (rs : list (option StartError)) : list string :=
  match us, rs with
  | u :: us', Some _ :: rs' => ID u :: failing us' rs'
  | _ :: us', None :: rs' => failing us' rs'
  | _, _ => []
  end.

(** The entries [os.MkdirAll dir] may add: directories on the way to [dir]. *)
Definition made_by_mkdir (dir : Path) (m m' : gmap Path Node) (p : Path) : Prop :=
  m !! p = None ∧ m' !! p = Some (Dir true) ∧ p `prefix_of` dir.

(** Nothing is left for [removeLockFile] to take away at the path: what
    is there, if it is a lock artifact, lies in a directory that cannot
    be written. *)
Definition settled (m : gmap Path Node) (p : Path) : Prop :=
  ∀ n, Lstat m p = inr n → lock_kind n = true → Lstat m (parent p) ≠ inr (Dir true).

Definition mkdir_failed (e : Errno) : Entry :=
  {| level := WarnLevel; format := "failed to create user data dir: %v"; args := [AErr e] |}.

Definition hostname_failed (e : Errno) : Entry :=
  {| level := WarnLevel; format := "failed to get hostname: %v"; args := [AErr e] |}.

End Vocabulary.

(** * Properties *)

(** ** The Go library functions, run *)

Module GoStringsFacts.
Import GoStrings.

Definition byte (n : nat) : string := String (ascii_of_nat n) EmptyString.

(** U+00A0 and U+3000 separate fields as a blank does; a lone 0xC2 is an
    ordinary byte. *)
Example Fields_unicode :
  Fields ("host-a" ++ byte 194 ++ byte 160 ++ "chrome" ++ byte 227 ++ byte 128 ++ byte 128
          ++ "4242")
  = ["host-a"; "chrome"; "4242"].
Proof. reflexivity. Qed.

Example Fields_lone_lead_byte :
  Fields ("a" ++ byte 194 ++ " b") = ["a" ++ byte 194; "b"].
Proof. reflexivity. Qed.

Example TrimSpace_both_ends :
  TrimSpace (byte 9 ++ " alice" ++ byte 194 ++ byte 133 ++ byte 10) = "alice".
Proof. reflexivity. Qed.

Example Split_trailing_separator :
  Split ("host-a" ++ byte 0 ++ "999999" ++ byte 0) (byte 0) = ["host-a"; "999999"; ""].
Proof. reflexivity. Qed.

(** [strconv.Atoi]: signs, a syntax error, and a value out of range. *)
Example Atoi_signed : Atoi "-12" = (-12, None) ∧ Atoi "+7" = (7, None).
Proof. by split. Qed.

Example Atoi_syntax : Atoi "12a" = (0, Some ErrSyntax) ∧ Atoi "" = (0, Some ErrSyntax).
Proof. by split. Qed.

Example Atoi_range : Atoi "99999999999999999999" = (MaxInt64, Some ErrRange).
Proof. reflexivity. Qed.

Lemma digit_range (c : ascii) (d : Z) : digit c = Some d → 0 ≤ d ≤ 9.
Proof.
  unfold digit. destruct (Z.leb_spec 48 (Z.of_N (N_of_ascii c))); [|done].
  destruct (Z.leb_spec (Z.of_N (N_of_ascii c)) 57); [|done].
  intros [= <-]. lia.
Qed.

Lemma digits_nonneg (s : string) (acc un : Z) :
  0 ≤ acc → digits acc s = Some un → 0 ≤ un.
Proof.
  revert acc. induction s as [|c s IH]; intros acc Hacc H; simpl in H.
  - by simplify_eq.
  - destruct (digit c) as [d|] eqn:Hd; [|done].
    apply digit_range in Hd. eapply IH; [|exact H]. lia.
Qed.

(** The value [strconv.Atoi] returns is a 64-bit integer. *)
Lemma Atoi_bounds (s : string) : MinInt64 ≤ (Atoi s).1 ≤ MaxInt64.
Proof.
  unfold Atoi.
  destruct (match s with
            | String "-" s' => (true, s')
            | String "+" s' => (false, s')
            | _ => (false, s)
            end) as [neg body].
  destruct body as [|c body]; [by vm_compute|].
  destruct (digits 0 (String c body)) as [un|] eqn:Hun; [|by vm_compute].
  apply digits_nonneg in Hun; [|done].
  unfold MaxInt64, MinInt64 in *.
  destruct neg; cbn [negb andb];
    repeat match goal with
           | |- context [Z.ltb ?a ?b] => destruct (Z.ltb_spec a b)
           end; cbn [fst]; lia.
Qed.

End GoStringsFacts.

(** ** Path resolution and the file-system calls *)

Module OSFacts.
Import OS.

(** A path that resolves is bound in the map. *)
Lemma walk_lookup (m : gmap Path Node) (rest cur : Path) (n : Node) :
  walk m cur rest = inr n → rest ≠ [] → m !! (cur ++ rest)%list = Some n.
Proof.
  revert cur. induction rest as [|c rest IH]; intros cur Hw Hne; [done|].
  simpl in Hw. destruct (m !! (cur ++ [c])%list) as [x|] eqn:Hx; [|done].
  destruct rest as [|c' rest'].
  - by simplify_eq.
  - destruct x; try done.
    apply IH in Hw; [|done]. by rewrite <- app_assoc in Hw.
Qed.

Lemma Lstat_lookup (m : gmap Path Node) (p : Path) (n : Node) :
  Lstat m p = inr n → p ≠ [] → m !! p = Some n.
Proof. intros H Hp. by apply (walk_lookup m p []) in H. Qed.

(** Resolution goes through directories only. *)
Lemma walk_parent (m : gmap Path Node) (rest cur : Path) (c : string) (n : Node) :
  walk m cur (rest ++ [c])%list = inr n → ∃ b, walk m cur rest = inr (Dir b).
Proof.
  revert cur. induction rest as [|d rest IH]; intros cur Hw; [by eexists|].
  simpl in Hw. simpl.
  destruct (m !! (cur ++ [d])%list) as [x|] eqn:Hx; [|done].
  destruct rest as [|d' rest'].
  - simpl in Hw. destruct x; try done. by eexists.
  - simpl in Hw. destruct x; try done. by apply IH in Hw.
Qed.

Lemma Lstat_parent (m : gmap Path Node) (dir : Path) (name : string) (n : Node) :
  Lstat m (Join dir name) = inr n → ∃ b, Lstat m dir = inr (Dir b).
Proof. apply walk_parent. Qed.

(** Removing an entry makes no path resolve that did not resolve before. *)
Lemma walk_delete (m : gmap Path Node) (q rest cur : Path) (n : Node) :
  walk (delete q m) cur rest = inr n → walk m cur rest = inr n.
Proof.
  revert cur. induction rest as [|c rest IH]; intros cur Hw; [done|].
  simpl in *.
  destruct (delete q m !! (cur ++ [c])%list) as [x|] eqn:Hx; [|done].
  apply lookup_delete_Some in Hx as [_ ->].
  destruct rest; [done|]. destruct x; try done. by apply IH.
Qed.

Lemma Lstat_delete (m : gmap Path Node) (q p : Path) (n : Node) :
  Lstat (delete q m) p = inr n → Lstat m p = inr n.
Proof. apply walk_delete. Qed.

Lemma Lstat_delete_self (m : gmap Path Node) (p : Path) (n : Node) :
  p ≠ [] → Lstat (delete p m) p ≠ inr n.
Proof.
  intros Hp H. apply Lstat_lookup in H; [|done]. by rewrite lookup_delete_eq in H.
Qed.

(** A directory is its own target for [os.Stat]. *)
Lemma Stat_dir (m : gmap Path Node) (p : Path) (b : bool) :
  Lstat m p = inr (Dir b) → Stat m p = inr (Dir b).
Proof. intros H. unfold Stat. simpl. by rewrite H. Qed.

Lemma Stat_Lstat_err (m : gmap Path Node) (p : Path) (e : Errno) :
  Lstat m p = inl e → Stat m p = inl e.
Proof. intros H. unfold Stat. simpl. by rewrite H. Qed.

Lemma Stat_inr_Lstat (m : gmap Path Node) (p : Path) (n : Node) :
  Stat m p = inr n → ∃ x, Lstat m p = inr x.
Proof.
  unfold Stat. simpl. destruct (Lstat m p) as [e|x]; [done|]. by eexists.
Qed.

Lemma ReadFile_inr_Lstat (m : gmap Path Node) (p : Path) (s : string) :
  ReadFile m p = inr s → ∃ x, Lstat m p = inr x.
Proof.
  unfold ReadFile. destruct (Stat m p) as [e|x] eqn:HS; [done|].
  intros _. by apply Stat_inr_Lstat in HS.
Qed.

(** [os.Remove] takes the one entry out, or fails and changes nothing. *)
Lemma Remove_inr (m m' : gmap Path Node) (p : Path) :
  Remove m p = inr m' → m' = delete p m ∧ p ≠ [] ∧ ∃ n, Lstat m p = inr n.
Proof.
  unfold Remove. destruct p as [|c p]; [done|].
  destruct (Lstat m (c :: p)) as [e|n]; [done|].
  destruct (Lstat m (parent (c :: p))) as [e|[| [] | | |]]; try done.
  destruct n; try (intros [= <-]; eauto; fail).
  destruct (has_child m (c :: p)); [done|]. intros [= <-]; eauto.
Qed.

(** [os.Remove] of something that is not a directory fails only when the
    directory it lies in cannot be written. *)
Lemma Remove_inl (m : gmap Path Node) (p : Path) (n : Node) (e : Errno) :
  Lstat m p = inr n → (∀ b, n ≠ Dir b) → p ≠ [] →
  Remove m p = inl e → Lstat m (parent p) ≠ inr (Dir true).
Proof.
  intros Hn Hnd Hp. unfold Remove. destruct p as [|c p]; [done|].
  rewrite Hn. intros H Hpar. rewrite Hpar in H.
  destruct n as [? ? | w0 | ? | |]; try done. by destruct (Hnd w0).
Qed.



Lemma MkdirAll_dir (m : gmap Path Node) (p : Path) (b : bool) :
  Lstat m p = inr (Dir b) → MkdirAll m p = inr m.
Proof. intros H. unfold MkdirAll. by rewrite (Stat_dir m p b H). Qed.

(** Rewriting a regular file in place changes what is found at its
    path and nothing else. *)
Lemma walk_insert_file (m : gmap Path Node) (q : Path) (perm perm' : FilePerm)
    (d d' : string) (rest cur : Path) :
  m !! q = Some (File perm d) → rest ≠ [] →
  walk (<[q := File perm' d']> m) cur rest =
    if decide ((cur ++ rest)%list = q)
    then match walk m cur rest with
         | inr _ => inr (File perm' d')
         | inl e => inl e
         end
    else walk m cur rest.
Proof.
  intros Hq. revert cur. induction rest as [|c rest IH]; intros cur Hne; [done|].
  cbn [walk]. destruct rest as [|c' rest'].
  - destruct (decide ((cur ++ [c])%list = q)) as [<-|Hc].
    + by rewrite lookup_insert_eq, Hq.
    + by rewrite lookup_insert_ne.
  - assert (Hmid : (cur ++ [c])%list ≠ (cur ++ c :: c' :: rest')%list).
    { intros H. apply (f_equal length) in H. rewrite !length_app in H. simpl in H. lia. }
    destruct (decide ((cur ++ [c])%list = q)) as [<-|Hc].
    + rewrite lookup_insert_eq, Hq. by destruct (decide _).
    + rewrite lookup_insert_ne by done.
      destruct (m !! (cur ++ [c])%list) as [x|]; [|by destruct (decide _)].
      destruct x; try by destruct (decide _).
      rewrite IH by done. by rewrite <- app_assoc.
Qed.

Lemma follow_insert_file (m : gmap Path Node) (q : Path) (perm : FilePerm)
    (d d' : string) (fuel : nat) (p : Path) :
  resolve fuel m p = inr q → Lstat m q = inr (File perm d) →
  follow fuel (<[q := File perm d']> m) p = inr (File perm d').
Proof.
  intros HR HL.
  assert (Hq : q ≠ []) by (by intros ->).
  pose proof (Lstat_lookup _ _ _ HL Hq) as Hm.
  assert (base : Lstat (<[q := File perm d']> m) q = inr (File perm d')).
  { unfold Lstat in *. rewrite (walk_insert_file m q perm perm d d' q [] Hm Hq).
    destruct (decide (([] ++ q)%list = q)); [|done]. by rewrite HL. }
  assert (link : ∀ p t, Lstat m p = inr (Symlink t) →
                        Lstat (<[q := File perm d']> m) p = inr (Symlink t)).
  { intros p0 t Hp. assert (Hpne : p0 ≠ []) by (by intros ->).
    unfold Lstat in *. rewrite (walk_insert_file m q perm perm d d' p0 [] Hm Hpne).
    destruct (decide (([] ++ p0)%list = q)) as [Heq|_]; [|done].
    simpl in Heq. subst q. congruence. }
  revert p HR. induction fuel as [|k IH]; intros p HR;
    cbn [resolve] in HR; cbn [follow];
    destruct (Lstat m p) as [e|n] eqn:Hp; try done;
    destruct n as [fp fd|b|t| |];
    try (injection HR as ->; by rewrite base).
  - done.
  - rewrite (link p t Hp). by apply IH.
Qed.



End OSFacts.

(** ** Reclamation step by step *)

Module BrowserFacts.
Import GoStrings OS OSFacts browser.

Lemma removable_lock_kind (n : Node) : removable (Mode n) = lock_kind n.
Proof. by destruct n. Qed.

Lemma shrink_refl (S : list Path) (m : gmap Path Node) : shrink S m m.
Proof. intros q. by left. Qed.

Lemma shrink_trans (S : list Path) (m1 m2 m3 : gmap Path Node) :
  shrink S m1 m2 → shrink S m2 m3 → shrink S m1 m3.
Proof.
  intros H12 H23 q. destruct (H23 q) as [E|(Hq & HN & n & Hn & Hk)].
  - rewrite E. apply H12.
  - right. split; [done|]. split; [done|]. exists n. split; [|done].
    destruct (H12 q) as [E|(_ & HN' & _)]; congruence.
Qed.

Lemma shrink_mono (S T : list Path) (m m' : gmap Path Node) :
  S ⊆ T → shrink S m m' → shrink T m m'.
Proof.
  intros HST H q. destruct (H q) as [E|(Hq & HN & Hn)]; [by left|].
  right. split; [by apply HST|done].
Qed.

Lemma extends_refl (w : World) : extends w w.
Proof. repeat split. exists []. by rewrite app_nil_r. Qed.

Lemma extends_trans (w1 w2 w3 : World) : extends w1 w2 → extends w2 w3 → extends w1 w3.
Proof.
  intros (?&?&?&n1&L1) (?&?&?&n2&L2). repeat split; try congruence.
  exists (n1 ++ n2)%list. by rewrite L2, L1, app_assoc.
Qed.

Lemma extends_logf (l : Level) (f : string) (a : list Arg) (w : World) :
  extends w (logf l f a w).
Proof. repeat split. by eexists. Qed.

Lemma extends_set_fs (w : World) (m : gmap Path Node) : extends w (set_fs w m).
Proof. repeat split. exists []. by rewrite app_nil_r. Qed.

Lemma logged_since_extends (w w1 w2 : World) (x : Entry) :
  logged_since w w1 x → extends w1 w2 → logged_since w w2 x.
Proof.
  intros (n1 & H1 & Hx) (_&_&_& n2 & H2). exists (n1 ++ n2)%list.
  split; [by rewrite H2, H1, app_assoc|]. apply elem_of_app. by left.
Qed.

Lemma logged_since_shift (w w1 w2 : World) (x : Entry) :
  extends w w1 → logged_since w1 w2 x → logged_since w w2 x.
Proof.
  intros (_&_&_& n1 & H1) (n2 & H2 & Hx). exists (n1 ++ n2)%list.
  split; [by rewrite H2, H1, app_assoc|]. apply elem_of_app. by right.
Qed.

Lemma set_fs_same (w : World) : set_fs w (fs w) = w.
Proof. by destruct w. Qed.

(** *** [removeLockFile] *)

Lemma removeLockFile_extends (p : Path) (w : World) : extends w (removeLockFile p w).
Proof.
  unfold removeLockFile. destruct (Lstat (fs w) p) as [e|n].
  - destruct (IsNotExist e); [apply extends_refl|apply extends_logf].
  - destruct (removable (Mode n)); [|apply extends_refl].
    destruct (Remove (fs w) p) as [e|m]; [apply extends_logf|].
    eapply extends_trans; [apply (extends_set_fs w m)|apply extends_logf].
Qed.

Lemma removeLockFile_shrink (p : Path) (w : World) :
  shrink [p] (fs w) (fs (removeLockFile p w)).
Proof.
  unfold removeLockFile. destruct (Lstat (fs w) p) as [e|n] eqn:HL.
  - destruct (IsNotExist e); apply shrink_refl.
  - destruct (removable (Mode n)) eqn:Hr; [|apply shrink_refl].
    destruct (Remove (fs w) p) as [e|m] eqn:HR; [apply shrink_refl|].
    apply Remove_inr in HR as (-> & Hp & _). simpl. intros q.
    destruct (decide (q = p)) as [->|Hq].
    + right. rewrite lookup_delete_eq. split; [set_solver|]. split; [done|].
      exists n. split; [by apply Lstat_lookup|]. by rewrite <- removable_lock_kind.
    + left. by rewrite lookup_delete_ne.
Qed.

(** After [removeLockFile p] the name [p] has been deleted. *)
Lemma removeLockFile_reclaimed (p : Path) (w : World) :
  p ≠ [] → reclaimed w (removeLockFile p w) p.
Proof.
  intros Hp. unfold removeLockFile, reclaimed.
  destruct (Lstat (fs w) p) as [e|n] eqn:HL.
  - left. intros n Hn.
    destruct (IsNotExist e); simpl in Hn; congruence.
  - destruct (removable (Mode n)) eqn:Hr.
    + destruct (Remove (fs w) p) as [e|m] eqn:HR.
      * right. exists e. exists [remove_failed p e]. split; [done|set_solver].
      * left. apply Remove_inr in HR as (-> & _ & _). simpl.
        intros x Hx. by apply Lstat_delete_self in Hx.
    + left. intros x Hx. rewrite HL in Hx. simplify_eq.
      by rewrite <- removable_lock_kind.
Qed.

(** A later removal does not bring a deleted name back. *)
Lemma walk_shrink (S : list Path) (m m' : gmap Path Node) (rest cur : Path) (n : Node) :
  shrink S m m' → walk m' cur rest = inr n → walk m cur rest = inr n.
Proof.
  intros Hs. revert cur. induction rest as [|c rest IH]; intros cur Hw; [done|].
  simpl in *.
  destruct (m' !! (cur ++ [c])%list) as [x|] eqn:Hx; [|done].
  destruct (Hs (cur ++ [c])%list) as [E|(_ & HN & _)]; [|congruence].
  rewrite <- E, Hx. destruct rest; [done|]. destruct x; try done.
  by apply IH.
Qed.

Lemma no_artifact_shrink (S : list Path) (m m' : gmap Path Node) (p : Path) :
  shrink S m m' → no_artifact m p → no_artifact m' p.
Proof. intros Hs Hm n Hn. apply Hm. by eapply walk_shrink. Qed.

Lemma removeLockFile_keeps (p q : Path) (w0 w : World) :
  extends w0 w → reclaimed w0 w q → reclaimed w0 (removeLockFile p w) q.
Proof.
  intros He [Hq|[e Hq]].
  - left. eapply no_artifact_shrink; [apply removeLockFile_shrink|done].
  - right. exists e. eapply logged_since_extends; [done|apply removeLockFile_extends].
Qed.

(** *** The loop over [lockFiles] *)

Lemma removeLockFiles_extends (dir : Path) (w : World) :
  extends w (removeLockFiles dir w).
Proof.
  unfold removeLockFiles. simpl.
  repeat (eapply extends_trans; [|apply removeLockFile_extends]). apply extends_refl.
Qed.

Lemma removeLockFiles_shrink (dir : Path) (w : World) :
  shrink (map (Join dir) lockFiles) (fs w) (fs (removeLockFiles dir w)).
Proof.
  unfold removeLockFiles. simpl.
  assert (sub : ∀ name, name ∈ lockFiles → [Join dir name] ⊆ map (Join dir) lockFiles).
  { intros name Hn x ->%list_elem_of_singleton. by apply list_elem_of_fmap_2. }
  repeat (eapply shrink_trans;
          [|eapply shrink_mono; [apply sub|apply removeLockFile_shrink];
            unfold lockFiles; repeat constructor]).
  apply shrink_refl.
Qed.

Lemma Join_nonempty (dir : Path) (name : string) : Join dir name ≠ [].
Proof. unfold Join. by destruct dir. Qed.

Lemma removeLockFiles_reclaimed (dir : Path) (w : World) (p : Path) :
  p ∈ map (Join dir) lockFiles → reclaimed w (removeLockFiles dir w) p.
Proof.
  unfold removeLockFiles. simpl. intros Hp.
  set (w1 := removeLockFile (Join dir "SingletonLock") w).
  set (w2 := removeLockFile (Join dir "SingletonSocket") w1).
  assert (E1 : extends w w1) by apply removeLockFile_extends.
  assert (E2 : extends w w2)
    by (eapply extends_trans; [exact E1|apply removeLockFile_extends]).
  assert (shift : ∀ x q, extends w x → reclaimed x (removeLockFile q x) q →
                         reclaimed w (removeLockFile q x) q).
  { intros x q Hx [H|[e H]]; [by left|right]. exists e.
    by eapply logged_since_shift. }
  apply elem_of_cons in Hp as [->|Hp]; [|apply elem_of_cons in Hp as [->|Hp]].
  - apply removeLockFile_keeps; [done|]. apply removeLockFile_keeps; [done|].
    apply removeLockFile_reclaimed, Join_nonempty.
  - apply removeLockFile_keeps; [done|].
    apply shift; [done|]. apply removeLockFile_reclaimed, Join_nonempty.
  - apply list_elem_of_singleton in Hp as ->.
    apply shift; [done|]. apply removeLockFile_reclaimed, Join_nonempty.
Qed.

Lemma removeLockFiles_keeps (dir q : Path) (w0 w : World) :
  extends w0 w → reclaimed w0 w q → reclaimed w0 (removeLockFiles dir w) q.
Proof.
  intros He Hq. unfold removeLockFiles. simpl.
  apply removeLockFile_keeps.
  { repeat (eapply extends_trans; [|apply removeLockFile_extends]). exact He. }
  apply removeLockFile_keeps.
  { repeat (eapply extends_trans; [|apply removeLockFile_extends]). exact He. }
  by apply removeLockFile_keeps.
Qed.

(** *** [isStaleProfile] *)

Lemma isStaleProfile_world (dir : Path) (w : World) :
  fs (isStaleProfile dir w).2 = fs w ∧ extends w (isStaleProfile dir w).2.
Proof.
  assert (L : ∀ l f a, fs (logf l f a w) = fs w ∧ extends w (logf l f a w))
    by (split; [done|apply extends_logf]).
  assert (Rf : fs w = fs w ∧ extends w w) by (split; [done|apply extends_refl]).
  unfold isStaleProfile.
  destruct (ReadFile (fs w) (Join dir "SingletonCookie")) as [e|content].
  { destruct (IsNotExist e); cbn [snd]; first [exact Rf|apply L]. }
  destruct (String.eqb content EmptyString); [exact Rf|].
  destruct (parseCookie content) as [host pid].
  destruct (hostname w) as [e|cur] eqn:HH; [apply L|].
  destruct (negb (String.eqb host EmptyString) && negb (String.eqb host cur));
    [apply L|].
  destruct (0 <? pid); [|exact Rf].
  destruct (negb (isProcessAlive pid w)); apply L.
Qed.


(** The verdict on a cookie that was read, in terms of what was parsed. *)
Lemma isStaleProfile_parsed (dir : Path) (w : World) (content host cur : string) (pid : Z) :
  ReadFile (fs w) (Join dir "SingletonCookie") = inr content →
  content ≠ EmptyString →
  parseCookie content = (host, pid) →
  hostname w = inr cur →
  isStaleProfile dir w =
    if negb (String.eqb host EmptyString) && negb (String.eqb host cur)
    then (true,
          logf InfoLevel
            "stale profile detected: hostname mismatch (cookie=%s, current=%s)"
            [AStr host; AStr cur] w)
    else if 0 <? pid then
      if negb (isProcessAlive pid w)
      then (true, logf InfoLevel "stale profile detected: pid %d is not alive" [AInt pid] w)
      else (false, logf WarnLevel "profile may be in use: pid %d is alive on same host"
                     [AInt pid] w)
    else (true, w).
Proof.
  intros HR Hne HP HH. unfold isStaleProfile. rewrite HR.
  destruct (String.eqb_spec content EmptyString) as [|_]; [done|].
  by rewrite HP, HH.
Qed.

Lemma parseCookie_empty : parseCookie EmptyString = (EmptyString, 0).
Proof. reflexivity. Qed.


(** *** [cleanupChromeLocks] *)

(** A cookie that can be read lies in a directory: [os.MkdirAll] has
    nothing to make. *)
Lemma readable_cookie_dir (m : gmap Path Node) (dir : Path) (name content : string) :
  ReadFile m (Join dir name) = inr content → MkdirAll m dir = inr m.
Proof.
  intros (x & Hx)%ReadFile_inr_Lstat. apply Lstat_parent in Hx as [b Hb].
  by eapply MkdirAll_dir.
Qed.

(** When the directory is there and the profile is not stale, only two
    lines are logged. *)
Lemma cleanup_not_stale (dir : Path) (w w2 : World) :
  MkdirAll (fs w) dir = inr (fs w) →
  isStaleProfile dir w = (false, w2) →
  cleanupChromeLocks dir w =
    logf DebugLevel "profile appears to be in active use, skip cleanup" [] w2.
Proof.
  intros HM HS. unfold cleanupChromeLocks. by rewrite HM, set_fs_same, HS.
Qed.

(** Nothing under a path that is not a directory resolves. *)
Lemma below_missing_dir (m : gmap Path Node) (dir p : Path) :
  (∀ b, Lstat m dir ≠ inr (Dir b)) → p ∈ lockPaths dir → no_artifact m p.
Proof.
  intros Hd Hp n Hn. exfalso. unfold lockPaths in Hp.
  apply elem_of_app in Hp as [Hp|Hp]; apply list_elem_of_fmap in Hp as (name & -> & _).
  - apply Lstat_parent in Hn as [b Hb]. by eapply Hd.
  - apply Lstat_parent in Hn as [b' Hb']. apply Lstat_parent in Hb' as [b Hb].
    by eapply Hd.
Qed.

(** When the profile is found stale, every lock name is deleted. *)
Lemma cleanup_stale (dir : Path) (w : World) :
  (∀ m, MkdirAll (fs w) dir = inr m → (isStaleProfile dir (set_fs w m)).1 = true) →
  ∀ p, p ∈ lockPaths dir → reclaimed w (cleanupChromeLocks dir w) p.
Proof.
  intros Hstale p Hp. unfold cleanupChromeLocks.
  destruct (MkdirAll (fs w) dir) as [e|m] eqn:HM.
  { left. simpl. eapply below_missing_dir; [|done].
    intros b Hb. by rewrite (MkdirAll_dir _ _ _ Hb) in HM. }
  specialize (Hstale m eq_refl).
  destruct (isStaleProfile_world dir (set_fs w m)) as [Hfs Hext].
  destruct (isStaleProfile dir (set_fs w m)) as [stale w2]. simpl in *. subst stale.
  simpl. assert (E2 : extends w w2)
    by (eapply extends_trans; [apply (extends_set_fs w m)|done]).
  set (w3 := removeLockFiles dir w2).
  assert (E3 : extends w w3)
    by (eapply extends_trans; [exact E2|apply removeLockFiles_extends]).
  assert (shift : ∀ x y q, extends w x → reclaimed x y q → reclaimed w y q).
  { intros x y q Hx [H|[e H]]; [by left|right]. exists e.
    by eapply logged_since_shift. }
  unfold lockPaths in Hp. apply elem_of_app in Hp as [Hp|Hp].
  - assert (R3 : reclaimed w w3 p)
      by (eapply shift; [exact E2|by apply removeLockFiles_reclaimed]).
    destruct (Stat (fs w3) (Join dir "Default")); [done|].
    by apply removeLockFiles_keeps.
  - destruct (Stat (fs w3) (Join dir "Default")) as [e|n] eqn:HS.
    + left. intros n Hn. exfalso.
      apply list_elem_of_fmap in Hp as (name & -> & _).
      apply Lstat_parent in Hn as [b Hb]. apply Stat_dir in Hb. congruence.
    + eapply shift; [exact E3|by apply removeLockFiles_reclaimed].
Qed.


End BrowserFacts.

(** ** The claims about reclamation *)

Module Reclaim.
Import GoStrings OS OSFacts browser BrowserFacts Hosts.

(** *** Parsing the cookie *)

Lemma split_from_nonempty (sep s cur : string) (skip : nat) :
  split_from sep skip cur s ≠ [].
Proof.
  revert skip cur. induction s as [|c s IH]; intros skip cur; [done|].
  cbn [split_from]. destruct skip; [|apply IH].
  destruct (HasPrefix (String c s) sep); [done|apply IH].
Qed.

Lemma HasPrefix_NUL (c : ascii) (s : string) :
  HasPrefix (String c s) NUL = Ascii.eqb "000" c.
Proof.
  unfold NUL. cbn [HasPrefix]. destruct (Ascii.eqb "000" c); [by destruct s|done].
Qed.

(** A content with a NUL byte splits into two fields at least. *)
Lemma split_nul_two (s cur : string) :
  Contains s NUL = true →
  ∃ first second rest, split_from NUL 0 cur s = first :: second :: rest.
Proof.
  revert cur. induction s as [|c s IH]; intros cur H; [done|].
  cbn [Contains] in H. cbn [split_from]. rewrite HasPrefix_NUL in *.
  destruct (Ascii.eqb "000" c).
  - change (Nat.pred (String.length NUL)) with 0%nat.
    destruct (split_from NUL 0 EmptyString s) as [|x l] eqn:E.
    + by apply split_from_nonempty in E.
    + by exists cur, x, l.
  - apply (IH (snoc cur c)) in H. exact H.
Qed.

Lemma at_index_last (x : string) (l : list string) :
  at_index (x :: l) (length (x :: l) - 1) = List.last (x :: l) EmptyString.
Proof.
  unfold at_index. revert x. induction l as [|y l IH]; intros x; [done|].
  specialize (IH y). simpl in *. by rewrite Nat.sub_0_r in IH.
Qed.

(** C4, as the code has it.  The host name and the process id are read
    from the NUL-separated fields when the content has a NUL byte: the
    host name is the first field and the process id is [strconv.Atoi] of
    the second.  Only a content without a NUL byte is cut at white space:
    the host name is then the first field, and the process id is
    [strconv.Atoi] of the last field when there are two fields or more;
    with a single field the process id stays 0, and with no field the
    host name stays empty as well. *)
Theorem parseCookie_fields (content : string) :
  (Contains content NUL = true →
   ∃ first second rest,
     Split content NUL = first :: second :: rest ∧
     parseCookie content = (first, (Atoi second).1))
  ∧
  (Contains content NUL = false →
   match Fields (TrimSpace content) with
   | [] => parseCookie content = (EmptyString, 0)
   | [only] => parseCookie content = (only, 0)
   | first :: second :: rest =>
       parseCookie content = (first, (Atoi (List.last (second :: rest) EmptyString)).1)
   end).
Proof.
  split; intros H; unfold parseCookie; rewrite H.
  - destruct (split_nul_two content EmptyString H) as (first & second & rest & E).
    exists first, second, rest. unfold Split. by rewrite E.
  - destruct (Fields (TrimSpace content)) as [|first [|second rest]] eqn:E; try done.
    cbn [length Nat.leb]. f_equal.
    pose proof (at_index_last first (second :: rest)) as L.
    cbn [length] in L. rewrite L. done.
Qed.

(** Both formats and the one-field case, run on the code. *)
Lemma parseCookie_fields_witness :
  parseCookie (cookie "host-a" "999999") = ("host-a", 999999) ∧
  parseCookie "host-a chrome 4242" = ("host-a", 4242) ∧
  parseCookie "4242" = ("4242", 0).
Proof.
  destruct (parseCookie_fields (cookie "host-a" "999999")) as [H1 _].
  destruct (parseCookie_fields "host-a chrome 4242") as [_ H2].
  destruct (parseCookie_fields "4242") as [_ H3].
  split; [|split].
  - destruct (H1 eq_refl) as (first & second & rest & E & ->).
    vm_compute in E. by simplify_eq.
  - exact (H2 eq_refl).
  - exact (H3 eq_refl).
Defined.

(** C4 as the claim words it fails on a content of one field: the field
    is the first and the last one, yet it is not read as the process id. *)
Lemma parseCookie_single_field :
  Contains "4242" NUL = false ∧
  Fields (TrimSpace "4242") = ["4242"] ∧
  List.last (Fields (TrimSpace "4242")) EmptyString = "4242" ∧
  (Atoi "4242").1 = 4242 ∧
  parseCookie "4242" = ("4242", 0) ∧
  (parseCookie "4242").2 ≠ (Atoi (List.last (Fields (TrimSpace "4242")) EmptyString)).1.
Proof. repeat split; done. Qed.

(** *** Shared steps *)

Lemma parsed_nonempty (content host : string) (pid : Z) :
  parseCookie content = (host, pid) → host ≠ EmptyString ∨ pid ≠ 0 →
  content ≠ EmptyString.
Proof. intros H Hne ->. rewrite parseCookie_empty in H. simplify_eq. by destruct Hne. Qed.

Lemma alive_on_procfs (pid : Z) (w : World) :
  GOOS w ≠ "windows" → procfs w → isProcessAlive pid w = bool_decide (pid ∈ procs w).
Proof.
  intros HG HP. unfold isProcessAlive.
  destruct (String.eqb_spec (GOOS w) "windows") as [|_]; [done|].
  destruct (Stat (fs w) (procPath pid)) as [e|n] eqn:HS.
  - symmetry. apply bool_decide_eq_false. intros [n Hn]%HP. congruence.
  - symmetry. apply bool_decide_eq_true. apply HP. by exists n.
Qed.


(** With a cookie that can be read, the verdict on [w] is the one
    reclamation acts on. *)
Lemma stale_readable (dir : Path) (w : World) (content : string) :
  ReadFile (fs w) (Join dir "SingletonCookie") = inr content →
  (isStaleProfile dir w).1 = true →
  ∀ p, p ∈ lockPaths dir → reclaimed w (cleanupChromeLocks dir w) p.
Proof.
  intros HR HS. apply cleanup_stale. intros m HM.
  rewrite (readable_cookie_dir _ _ _ _ HR) in HM. simplify_eq.
  by rewrite set_fs_same.
Qed.

Lemma logf_logs (l : Level) (f : string) (a : list Arg) (w : World) :
  logs (logf l f a w) = (logs w ++ [{| level := l; format := f; args := a |}])%list.
Proof. done. Qed.

(** *** The frame of reclamation *)


(** *** A live owner on the same host *)

(** C1, as the code has it.  On a host other than Windows whose /proc
    lists the live processes: when the cookie records the host name of
    the current host and a positive process id whose process is alive,
    reclamation leaves the file system as it is and logs the warning
    that the profile may be in use, followed by the note that cleanup is
    skipped. *)
Theorem live_owner_untouched (dir : Path) (w : World) (content host : string) (pid : Z) :
  GOOS w ≠ "windows" →
  procfs w →
  ReadFile (fs w) (Join dir "SingletonCookie") = inr content →
  parseCookie content = (host, pid) →
  hostname w = inr host →
  0 < pid →
  pid ∈ procs w →
  fs (cleanupChromeLocks dir w) = fs w ∧
  logs (cleanupChromeLocks dir w) = (logs w ++ [may_be_in_use pid; skip_cleanup])%list.
Proof.
  intros HG HP HR Hparse HH Hpos Hlive.
  assert (Hne : content ≠ EmptyString)
    by (eapply parsed_nonempty; [done|right; lia]).
  pose proof (isStaleProfile_parsed dir w content host host pid HR Hne Hparse HH) as HS.
  rewrite String.eqb_refl, andb_false_r in HS.
  destruct (Z.ltb_spec 0 pid); [|lia].
  rewrite (alive_on_procfs pid w HG HP), bool_decide_eq_true_2 in HS; [|done].
  simpl in HS.
  rewrite (cleanup_not_stale dir w _ (readable_cookie_dir _ _ _ _ HR) HS).
  split; [done|]. rewrite !logf_logs, <- app_assoc. done.
Qed.

(** The Linux host of [Hosts] has a /proc that lists process 4242 and no other. *)
Lemma linux_procfs (content : string) : procfs (linux content).
Proof.
  intros pid. simpl. split.
  - intros ->%elem_of_singleton. by exists (Dir false).
  - intros [n (x & Hx)%Stat_inr_Lstat]. apply Lstat_lookup in Hx; [|done].
    apply elem_of_singleton. apply (inj pretty).
    apply elem_of_list_to_map_2 in Hx. simpl in Hx. unfold procPath in Hx.
    repeat (apply elem_of_cons in Hx as [Hx|Hx];
            [apply (f_equal fst) in Hx; simpl in Hx;
             first [discriminate Hx | injection Hx as ->; reflexivity]|]).
    by apply elem_of_nil in Hx.
Qed.

(** A live owner on the Linux host: nothing is removed, the warning is logged. *)
Lemma live_owner_untouched_witness :
  fs (cleanupChromeLocks profile (linux (cookie "host-a" "4242"))) =
    disk (cookie "host-a" "4242") true ∧
  logs (cleanupChromeLocks profile (linux (cookie "host-a" "4242"))) =
    [may_be_in_use 4242; skip_cleanup].
Proof.
  apply (live_owner_untouched profile (linux (cookie "host-a" "4242"))
           (cookie "host-a" "4242") "host-a" 4242).
  - done.
  - apply linux_procfs.
  - reflexivity.
  - reflexivity.
  - reflexivity.
  - lia.
  - unfold linux. cbn [procs]. by apply elem_of_singleton.
Defined.

(** C1 as the claim words it fails on Windows, where the liveness check
    answers "not alive" for every process id: the cookie names the
    current host and process 4242, which is alive, and yet the lock and
    the socket and the cookie are removed and no warning is logged. *)
Lemma live_owner_on_windows :
  ReadFile (fs (windows (cookie "host-a" "4242"))) (Join profile "SingletonCookie")
    = inr (cookie "host-a" "4242") ∧
  parseCookie (cookie "host-a" "4242") = ("host-a", 4242) ∧
  hostname (windows (cookie "host-a" "4242")) = inr "host-a" ∧
  0 < 4242 ∧
  4242 ∈ procs (windows (cookie "host-a" "4242")) ∧
  fs (cleanupChromeLocks profile (windows (cookie "host-a" "4242"))) = clean_disk false ∧
  fs (cleanupChromeLocks profile (windows (cookie "host-a" "4242")))
    ≠ fs (windows (cookie "host-a" "4242")) ∧
  may_be_in_use 4242 ∉ logs (cleanupChromeLocks profile (windows (cookie "host-a" "4242"))).
Proof.
  split_and!; try reflexivity.
  - intros H. apply (f_equal (λ m, m !! Join profile "SingletonLock")) in H.
    vm_compute in H. discriminate.
  - intros H. vm_compute in H.
    repeat (apply elem_of_cons in H as [H|H]; [discriminate|]).
    by apply elem_of_nil in H.
Qed.

(** *** A cookie written on another host *)

(** C2, as the code has it.  When the cookie records a host name that is
    not empty and differs from the host name of the current host, the
    profile is found stale on the host names alone (the one line logged
    is the mismatch; the process id is not looked at), and every one of
    the six lock names is deleted: afterwards none of them is a regular
    file, a symbolic link or a socket, a failure of [os.Remove] apart,
    which is logged as a warning. *)
Theorem foreign_host_reclaimed
    (dir : Path) (w : World) (content host cur : string) (pid : Z) :
  ReadFile (fs w) (Join dir "SingletonCookie") = inr content →
  parseCookie content = (host, pid) →
  hostname w = inr cur →
  host ≠ EmptyString →
  host ≠ cur →
  (isStaleProfile dir w).1 = true ∧
  logs (isStaleProfile dir w).2 = (logs w ++ [hostname_mismatch host cur])%list ∧
  fs (isStaleProfile dir w).2 = fs w ∧
  ∀ p, p ∈ lockPaths dir → reclaimed w (cleanupChromeLocks dir w) p.
Proof.
  intros HR Hparse HH Hhost Hcur.
  assert (Hne : content ≠ EmptyString) by (eapply parsed_nonempty; eauto).
  pose proof (isStaleProfile_parsed dir w content host cur pid HR Hne Hparse HH) as HS.
  destruct (String.eqb_spec host EmptyString) as [|_]; [done|].
  destruct (String.eqb_spec host cur) as [|_]; [done|].
  simpl in HS. rewrite HS. split_and!; try done.
  eapply stale_readable; [exact HR|]. by rewrite HS.
Qed.

(** A cookie of host-b found on host-a, where process 4242 is alive. *)
Lemma foreign_host_reclaimed_witness :
  (isStaleProfile profile (linux (cookie "host-b" "4242"))).1 = true ∧
  reclaimed (linux (cookie "host-b" "4242"))
    (cleanupChromeLocks profile (linux (cookie "host-b" "4242")))
    (Join profile "SingletonLock") ∧
  fs (cleanupChromeLocks profile (linux (cookie "host-b" "4242")))
    = clean_disk true.
Proof.
  destruct (foreign_host_reclaimed profile (linux (cookie "host-b" "4242"))
              (cookie "host-b" "4242") "host-b" "host-a" 4242) as (HS & _ & _ & HR);
    try done.
  split; [exact HS|]. split; [|by vm_compute].
  apply HR. unfold lockPaths, lockFiles. simpl. apply elem_of_cons. by left.
Defined.

(** C2 as the claim words it fails on a cookie whose host field is
    empty: the empty name differs from that of the current host, and yet
    the profile of the live process 4242 is not stale and nothing is
    removed. *)
Lemma empty_host_not_foreign :
  parseCookie (cookie "" "4242") = ("", 4242) ∧
  hostname (linux (cookie "" "4242")) = inr "host-a" ∧
  "" ≠ "host-a" ∧
  (isStaleProfile profile (linux (cookie "" "4242"))).1 = false ∧
  fs (cleanupChromeLocks profile (linux (cookie "" "4242")))
    = fs (linux (cookie "" "4242")) ∧
  fs (linux (cookie "" "4242")) !! Join profile "SingletonLock"
    = Some (Symlink ["host-a-4242"]).
Proof. split_and!; try reflexivity. discriminate. Qed.

(** *** A cookie that tells nothing *)








(** *** The liveness check *)



(** *** A cookie without a host name *)




(** *** Two runs on the same host *)

(** The owner recorded in the cookie is dead: lock, socket and cookie go. *)
Example dead_owner_reclaimed :
  (parseCookie (cookie "host-a" "999999")).2 = 999999 ∧
  fs (cleanupChromeLocks profile (linux (cookie "host-a" "999999"))) = clean_disk true.
Proof. by split. Qed.

(** A directory that bears a lock name stays, with what is in it. *)
Example lock_named_directory_kept :
  fs (cleanupChromeLocks profile
        (Fleet.host (list_to_map
           [ (["data"], Dir true); (profile, Dir true);
             (Join profile "SingletonLock", Dir true);
             (Join (Join profile "SingletonLock") "keep", File rw "x");
             (Join profile "SingletonSocket", NamedPipe) ])))
  = list_to_map
      [ (["data"], Dir true); (profile, Dir true);
        (Join profile "SingletonLock", Dir true);
        (Join (Join profile "SingletonLock") "keep", File rw "x");
        (Join profile "SingletonSocket", NamedPipe) ].
Proof. reflexivity. Qed.

End Reclaim.

(** ** The claims about the manager *)

Module Manager.
Import GoStrings OS OSFacts GoIO manager Fleet.

(** *** Auto-start recovery *)

Lemma select_from (users acc : list UserConfig) :
  fold_left (fun toStart u => if AutoStart u then (toStart ++ [u])%list else toStart) users acc
  = (acc ++ List.filter AutoStart users)%list.
Proof.
  revert acc. induction users as [|u users IH]; intros acc; simpl.
  - by rewrite app_nil_r.
  - rewrite IH. destruct (AutoStart u); [|done]. by rewrite <- app_assoc.
Qed.

Lemma selectAutoStart_filter (users : list UserConfig) :
  selectAutoStart users = List.filter AutoStart users.
Proof. apply (select_from users []). Qed.

Lemma startOne_attempt (s : Store) (start : StartUserFn) (trace : list Event) (u : UserConfig) :
  startOne s start trace u = (trace ++ attempt s u (start trace (paramsOf s u)))%list.
Proof.
  unfold startOne, attempt.
  destruct (start trace (paramsOf s u)); by rewrite <- app_assoc.
Qed.

(** The loop makes one attempt after the other, whatever the answers. *)
Lemma run_attempts (s : Store) (start : StartUserFn) (us : list UserConfig)
    (trace : list Event) :
  fold_left (startOne s start) us trace
  = (trace ++ concat (zip_with (attempt s) us (answers s start trace us)))%list.
Proof.
  revert trace. induction us as [|u us IH]; intros trace.
  - simpl. by rewrite app_nil_r.
  - cbn [fold_left answers zip_with concat]. rewrite IH, startOne_attempt.
    by rewrite <- app_assoc.
Qed.

Lemma answers_length (s : Store) (start : StartUserFn) (us : list UserConfig)
    (trace : list Event) :
  length (answers s start trace us) = length us.
Proof.
  revert trace. induction us as [|u us IH]; intros trace; [done|].
  simpl. by rewrite IH.
Qed.

Lemma starts_attempts (s : Store) (us : list UserConfig) (rs : list (option StartError)) :
  length rs = length us →
  starts (concat (zip_with (attempt s) us rs)) = map (fun u => (45, paramsOf s u)) us.
Proof.
  revert rs. induction us as [|u us IH]; intros [|r rs] Hlen; try done.
  cbn [zip_with concat map]. unfold starts in *. rewrite omap_app.
  rewrite IH by (simpl in Hlen; lia). by destruct r.
Qed.


(** The start of alice fails, and carol is started all the same; bob,
    who is not flagged, is left alone. *)
Example autoStart_after_failure :
  starts (autoStartUsers the_store alice_fails)
  = [(45, paramsOf the_store alice); (45, paramsOf the_store carol)].
Proof. reflexivity. Qed.

(** *** Clearing a log *)



(** *** Downloading a log *)

Lemma length_list_ascii (s : string) :
  length (list_ascii_of_string s) = String.length s.
Proof. induction s as [|c s IH]; [done|]. simpl. by rewrite IH. Qed.

(** While the file only grows and the connection takes what it is
    given, the loop copies the bytes that were there at the start, and
    no other. *)
Lemma copy_loop_exact (t : Transfer) (content : list ascii) (bufsize : nat) :
  (1 ≤ bufsize)%nat →
  read_error t = None →
  conn_limit t = None →
  (∀ k, ∃ tail, file_at t k = (content ++ tail)%list) →
  ∀ fuel k off,
    (off ≤ length content)%nat →
    (length content - off < fuel)%nat →
    copy_loop fuel t bufsize k off (length content - off) (take off content)
    = Some (content, None).
Proof.
  intros Hbuf Hread Hconn Hgrow. induction fuel as [|fuel IH]; intros k off Hoff Hfuel; [lia|].
  cbn [copy_loop]. destruct (Nat.eqb_spec (length content - off) 0) as [Hz|Hnz].
  - rewrite take_ge by lia. done.
  - rewrite Hread, Hconn. cbn [accepts].
    set (want := Nat.min bufsize (length content - off)).
    assert (Hwant : (1 ≤ want ≤ length content - off)%nat) by (unfold want; lia).
    destruct (Hgrow k) as [tail ->].
    assert (Hchunk : file_read (content ++ tail) off want = take want (drop off content)).
    { unfold file_read. rewrite drop_app_le by lia.
      rewrite take_app_le; [done|]. rewrite length_drop. lia. }
    rewrite Hchunk.
    assert (Hlen : length (take want (drop off content)) = want).
    { rewrite length_take, length_drop. lia. }
    rewrite Hlen. destruct (Nat.eqb_spec want 0) as [?|_]; [lia|].
    rewrite take_take_drop.
    replace (length content - off - want)%nat with (length content - (off + want))%nat by lia.
    apply IH; lia.
Qed.

(** The loop comes to an end within the bytes it is limited to. *)
Lemma copy_loop_total (t : Transfer) (bufsize : nat) :
  ∀ fuel k off N written,
    (N < fuel)%nat → is_Some (copy_loop fuel t bufsize k off N written).
Proof.
  induction fuel as [|fuel IH]; intros k off N written Hfuel; [lia|].
  cbn [copy_loop]. destruct (Nat.eqb_spec N 0); [by eexists|].
  destruct (read_error t); [by eexists|].
  destruct (Nat.eqb_spec (length (file_read (file_at t k) off (Nat.min bufsize N))) 0);
    [by eexists|].
  destruct (accepts _ _); [|by eexists]. apply IH. lia.
Qed.

Lemma CopyN_total (t : Transfer) (n : Z) : is_Some (CopyN t n).
Proof.
  unfold CopyN.
  match goal with |- context [copy_loop ?f t ?b 0 0 ?N []] =>
    destruct (copy_loop_total t b f 0 0 N []) as [[written err] ->]; [lia|]
  end.
  destruct (_ =? _)%nat; [by eexists|]. destruct err; by eexists.
Qed.

(** [DownloadDebugLogs] always comes to an answer. *)
Lemma DownloadDebugLogs_total (a : App) (param : string) (w : World) (d : Download) :
  is_Some (DownloadDebugLogs a param w d).
Proof.
  unfold DownloadDebugLogs.
  destruct (String.eqb _ _); [by eexists|].
  destruct (GetUser _ _); [|by eexists].
  destruct (Open _ _) as [e|f]; [destruct (IsNotExist e); by eexists|].
  destruct (fstat d); [by eexists|].
  destruct (CopyN_total (transfer d) (Size f)) as [[written err] ->].
  destruct err as [[]|]; by eexists.
Qed.

Lemma CopyN_exact (t : Transfer) (content : list ascii) :
  read_error t = None →
  conn_limit t = None →
  (∀ k, ∃ tail, file_at t k = (content ++ tail)%list) →
  CopyN t (Z.of_nat (length content)) = Some (content, None).
Proof.
  intros Hread Hconn Hgrow. unfold CopyN. rewrite Nat2Z.id.
  set (bufsize := if (length content <? copy_buffer)%nat
                  then if (length content <? 1)%nat then 1%nat else length content
                  else copy_buffer).
  assert (Hbuf : (1 ≤ bufsize)%nat).
  { unfold bufsize.
    destruct (Nat.ltb_spec (length content) copy_buffer);
      [destruct (Nat.ltb_spec (length content) 1); lia|].
    unfold copy_buffer. lia. }
  pose proof (copy_loop_exact t content bufsize Hbuf Hread Hconn Hgrow
                (S (length content)) 0 0) as H.
  rewrite Nat.sub_0_r, take_0 in H. rewrite H by lia.
  by rewrite Nat.eqb_refl.
Qed.

(** C6.  For a user that is found and a log that can be opened: the
    size is read once, from [f.Stat], before any byte of the body is
    written; it is declared as Content-Length; and when the file only
    grows during the transfer and the connection takes what it is given,
    [io.CopyN] comes to an end and the body is the content the file had
    when its size was read, so that as many bytes are sent as were
    declared. *)
Theorem download_exact (a : App) (param : string) (w : World) (d : Download)
    (user : UserConfig) (perm : FilePerm) (data modTime : string) :
  let id := TrimSpace param in
  id ≠ EmptyString →
  GetUser (store a) id = Some user →
  Open (fs w) (logFileOf a id user) = inr (File perm data) →
  fstat d = inr modTime →
  read_error (transfer d) = None →
  conn_limit (transfer d) = None →
  (∀ k, ∃ tail, file_at (transfer d) k = (list_ascii_of_string data ++ tail)%list) →
  ∃ c, DownloadDebugLogs a param w d = Some c ∧
       status c = 200 ∧
       header c !! "Content-Length" = Some (pretty (Z.of_nat (String.length data))) ∧
       body c = list_ascii_of_string data ∧
       Z.of_nat (length (body c)) = Z.of_nat (String.length data) ∧
       errors c = [] ∧
       flushed c = true.
Proof.
  intros id Hid Huser Hopen Hstat Hread Hconn Hgrow.
  unfold DownloadDebugLogs. fold id.
  destruct (String.eqb_spec id EmptyString) as [|_]; [done|].
  rewrite Huser. fold (logFileOf a id user). rewrite Hopen, Hstat.
  cbn [Size]. rewrite <- (length_list_ascii data).
  rewrite (CopyN_exact _ _ Hread Hconn Hgrow).
  eexists. split; [reflexivity|]. cbn.
  split_and!; done.
Qed.

(** The log of alice holds 9 bytes when its size is read and grows by
    500 bytes before every read: 9 bytes are declared and sent. *)
Lemma download_exact_witness :
  ∃ c, DownloadDebugLogs (app true) "alice" (host (log_disk rw "hello log"))
         (growing "hello log") = Some c ∧
       header c !! "Content-Length" = Some "9" ∧
       body c = list_ascii_of_string "hello log".
Proof.
  destruct (download_exact (app true) "alice" (host (log_disk rw "hello log"))
              (growing "hello log") alice rw "hello log"
              "Sat, 31 Oct 2026 00:00:00 GMT") as (c & Hc & _ & Hlen & Hbody & _);
    try done.
  - intros k. by eexists.
  - exists c. by split_and!.
Defined.

End Manager.

(** ** More on path resolution and truncation *)

Module OSMore.
Import OS OSFacts.

(** [os.Stat] is [os.Lstat] at the end of the chain of links. *)
Lemma follow_resolve (m : gmap Path Node) (fuel : nat) (p : Path) :
  follow fuel m p =
    match resolve fuel m p with
    | inl e => inl e
    | inr q => Lstat m q
    end.
Proof.
  revert p. induction fuel as [|k IH]; intros p; cbn [follow resolve];
    destruct (Lstat m p) as [e|n] eqn:Hp; try done; destruct n; done.
Qed.

(** The end of a chain of links is not a link. *)
Lemma resolve_not_link (m : gmap Path Node) (fuel : nat) (p q : Path) (t : Path) :
  resolve fuel m p = inr q → Lstat m q ≠ inr (Symlink t).
Proof.
  revert p. induction fuel as [|k IH]; intros p; cbn [resolve];
    destruct (Lstat m p) as [e|n] eqn:Hp; try done;
    destruct n; try (intros [= <-]; congruence); try done.
  apply IH.
Qed.

(** Rewriting the file at the end of a chain leaves the chain as it is. *)
Lemma resolve_insert_file (m : gmap Path Node) (q : Path) (perm : FilePerm)
    (d d' : string) (fuel : nat) (p : Path) :
  resolve fuel m p = inr q → Lstat m q = inr (File perm d) →
  resolve fuel (<[q := File perm d']> m) p = inr q.
Proof.
  intros HR HL.
  assert (Hq : q ≠ []) by (by intros ->).
  pose proof (Lstat_lookup _ _ _ HL Hq) as Hm.
  assert (base : Lstat (<[q := File perm d']> m) q = inr (File perm d')).
  { unfold Lstat in *. rewrite (walk_insert_file m q perm perm d d' q [] Hm Hq).
    destruct (decide (([] ++ q)%list = q)); [|done]. by rewrite HL. }
  assert (link : ∀ p t, Lstat m p = inr (Symlink t) →
                        Lstat (<[q := File perm d']> m) p = inr (Symlink t)).
  { intros p0 t Hp. assert (Hpne : p0 ≠ []) by (by intros ->).
    unfold Lstat in *. rewrite (walk_insert_file m q perm perm d d' p0 [] Hm Hpne).
    destruct (decide (([] ++ p0)%list = q)) as [Heq|_]; [|done].
    simpl in Heq. subst q. congruence. }
  revert p HR. induction fuel as [|k IH]; intros p HR;
    cbn [resolve] in HR; cbn [resolve];
    destruct (Lstat m p) as [e|n] eqn:Hp; try done;
    destruct n as [fp fd|b|t| |];
    try (injection HR as ->; by rewrite base).
  - done.
  - rewrite (link p t Hp). by apply IH.
Qed.

(** What a granted truncation is: one regular file, found at the end of
    the chain of links, is rewritten empty under the same permissions. *)
Lemma Truncate0_shape (m m' : gmap Path Node) (p : Path) :
  Truncate0 m p = inr m' →
  ∃ q perm d, resolve 40 m p = inr q ∧ Lstat m q = inr (File perm d) ∧
              can_truncate perm = true ∧ m' = <[q := File perm EmptyString]> m.
Proof.
  unfold Truncate0. destruct (resolve 40 m p) as [e|q] eqn:HR; [done|].
  destruct (Lstat m q) as [e|n] eqn:HL; [done|].
  destruct n as [perm d| | | |]; try done.
  destruct (can_truncate perm) eqn:Hc; [|done]. intros [= <-].
  by exists q, perm, d.
Qed.

Lemma OpenTrunc_shape (m m' : gmap Path Node) (p : Path) :
  OpenTrunc m p = inr m' →
  ∃ q perm d, resolve 40 m p = inr q ∧ Lstat m q = inr (File perm d) ∧
              can_open_trunc perm = true ∧ m' = <[q := File perm EmptyString]> m.
Proof.
  unfold OpenTrunc. destruct (resolve 40 m p) as [e|q] eqn:HR; [done|].
  destruct (Lstat m q) as [e|n] eqn:HL; [done|].
  destruct n as [perm d| | | |]; try done.
  destruct (can_open_trunc perm) eqn:Hc; [|done]. intros [= <-].
  by exists q, perm, d.
Qed.

(** The file as [os.Stat] finds it after the rewriting. *)
Lemma Stat_after_rewrite (m : gmap Path Node) (p q : Path) (perm : FilePerm) (d : string) :
  resolve 40 m p = inr q → Lstat m q = inr (File perm d) →
  Stat (<[q := File perm EmptyString]> m) p = inr (File perm EmptyString).
Proof. intros HR HL. by eapply follow_insert_file. Qed.

Lemma Lstat_after_rewrite (m : gmap Path Node) (q : Path) (perm : FilePerm) (d d' : string) :
  Lstat m q = inr (File perm d) →
  Lstat (<[q := File perm d']> m) q = inr (File perm d').
Proof.
  intros HL. assert (Hq : q ≠ []) by (by intros ->).
  pose proof (Lstat_lookup _ _ _ HL Hq) as Hm.
  unfold Lstat in *. rewrite (walk_insert_file m q perm perm d d' q [] Hm Hq).
  destruct (decide (([] ++ q)%list = q)); [|done]. by rewrite HL.
Qed.

(** Truncating again changes nothing more. *)
Lemma Truncate0_again (m m' : gmap Path Node) (p : Path) :
  Truncate0 m p = inr m' → Truncate0 m' p = inr m'.
Proof.
  intros (q & perm & d & HR & HL & Hc & ->)%Truncate0_shape.
  unfold Truncate0.
  rewrite (resolve_insert_file _ _ _ _ _ _ _ HR HL).
  rewrite (Lstat_after_rewrite _ _ _ _ _ HL), Hc.
  unfold put_empty. by rewrite insert_insert_eq.
Qed.

Lemma OpenTrunc_again (m m' : gmap Path Node) (p : Path) :
  OpenTrunc m p = inr m' → OpenTrunc m' p = inr m'.
Proof.
  intros (q & perm & d & HR & HL & Hc & ->)%OpenTrunc_shape.
  unfold OpenTrunc.
  rewrite (resolve_insert_file _ _ _ _ _ _ _ HR HL).
  rewrite (Lstat_after_rewrite _ _ _ _ _ HL), Hc.
  unfold put_empty. by rewrite insert_insert_eq.
Qed.

(** A file [truncate(2)] is refused on stays refused after [O_TRUNC]. *)
Lemma Truncate0_refused_again (m m' : gmap Path Node) (p : Path) (e : Errno) :
  Truncate0 m p = inl e → OpenTrunc m p = inr m' → Truncate0 m' p = inl EACCES.
Proof.
  intros HT (q & perm & d & HR & HL & Hc & ->)%OpenTrunc_shape.
  unfold Truncate0 in *. rewrite HR, HL in HT.
  rewrite (resolve_insert_file _ _ _ _ _ _ _ HR HL).
  rewrite (Lstat_after_rewrite _ _ _ _ _ HL).
  by destruct (can_truncate perm).
Qed.

(** A path that can be truncated is there for [os.Stat]. *)
Lemma Stat_of_resolved (m : gmap Path Node) (p q : Path) (n : Node) :
  resolve 40 m p = inr q → Lstat m q = inr n → Stat m p = inr n.
Proof. intros HR HL. unfold Stat. by rewrite follow_resolve, HR. Qed.

(** Resolution one component further. *)
Lemma walk_cons (m : gmap Path Node) (cur rest : Path) (d : string) :
  rest ≠ [] →
  walk m cur (d :: rest) =
    match m !! (cur ++ [d])%list with
    | Some (Dir _) => walk m (cur ++ [d]) rest
    | Some _ => inl ENOTDIR
    | None => inl ENOENT
    end.
Proof. intros Hne. destruct rest; [done|]. cbn [walk]. by destruct (m !! _). Qed.

Lemma walk_snoc (m : gmap Path Node) (rest cur : Path) (c : string) (b : bool) :
  walk m cur rest = inr (Dir b) →
  walk m cur (rest ++ [c]) =
    match m !! ((cur ++ rest) ++ [c])%list with
    | Some n => inr n
    | None => inl ENOENT
    end.
Proof.
  revert cur. induction rest as [|d rest IH]; intros cur Hw.
  - cbn [app walk]. rewrite app_nil_r. by destruct (m !! (cur ++ [c])%list).
  - change ((d :: rest) ++ [c])%list with (d :: (rest ++ [c]))%list.
    rewrite walk_cons by (by destruct rest).
    replace ((cur ++ d :: rest) ++ [c])%list with (((cur ++ [d]) ++ rest) ++ [c])%list
      by (by rewrite <- (app_assoc cur [d] rest)).
    destruct rest as [|d' rest'].
    + cbn [walk] in Hw. destruct (m !! (cur ++ [d])%list) as [x|]; [|done].
      simplify_eq. cbn [app walk]. rewrite app_nil_r.
      by destruct (m !! ((cur ++ [d]) ++ [c])%list).
    + rewrite walk_cons in Hw by done.
      destruct (m !! (cur ++ [d])%list) as [[]|]; try done. by apply IH.
Qed.

Lemma Lstat_snoc (m : gmap Path Node) (dir : Path) (c : string) (b : bool) :
  Lstat m dir = inr (Dir b) →
  Lstat m (dir ++ [c]) =
    match m !! (dir ++ [c])%list with
    | Some n => inr n
    | None => inl ENOENT
    end.
Proof. intros H. unfold Lstat. by rewrite (walk_snoc m dir [] c b H). Qed.

(** A new entry does not hide what was found before. *)
Lemma walk_insert_fresh (m : gmap Path Node) (q : Path) (x : Node) (rest cur : Path)
    (n : Node) :
  m !! q = None → walk m cur rest = inr n → walk (<[q := x]> m) cur rest = inr n.
Proof.
  intros Hq. revert cur. induction rest as [|c rest IH]; intros cur Hw; [done|].
  cbn [walk] in *.
  destruct (m !! (cur ++ [c])%list) as [y|] eqn:Hy; [|done].
  rewrite lookup_insert_ne by congruence. rewrite Hy.
  destruct rest; [done|]. destruct y; try done. by apply IH.
Qed.

(** [os.MkdirAll] leaves the directory behind. *)
Lemma mkdir_from_dir (rest cur : Path) (m m' : gmap Path Node) (b : bool) :
  Lstat m cur = inr (Dir b) →
  mkdir_from m cur rest = inr m' →
  ∃ b', Lstat m' (cur ++ rest) = inr (Dir b').
Proof.
  revert cur m b. induction rest as [|c rest IH]; intros cur m b Hcur H.
  - simpl in H. simplify_eq. rewrite app_nil_r. by exists b.
  - cbn [mkdir_from] in H.
    destruct (m !! (cur ++ [c])%list) as [x|] eqn:Hx.
    + destruct x as [| b1 | | |]; try done.
      assert (Hnext : Lstat m (cur ++ [c]) = inr (Dir b1))
        by (by rewrite (Lstat_snoc _ _ _ _ Hcur), Hx).
      destruct (IH _ _ _ Hnext H) as [b' Hb']. exists b'.
      by rewrite <- app_assoc in Hb'.
    + rewrite Hcur in H. destruct b; [|done].
      assert (Hcur' : Lstat (<[(cur ++ [c])%list := Dir true]> m) cur = inr (Dir true))
        by (by apply walk_insert_fresh).
      assert (Hnext : Lstat (<[(cur ++ [c])%list := Dir true]> m) (cur ++ [c])
                      = inr (Dir true))
        by (by rewrite (Lstat_snoc _ _ _ _ Hcur'), lookup_insert_eq).
      destruct (IH _ _ _ Hnext H) as [b' Hb']. exists b'.
      by rewrite <- app_assoc in Hb'.
Qed.

Lemma MkdirAll_Stat (m m' : gmap Path Node) (dir : Path) :
  MkdirAll m dir = inr m' → ∃ b, Stat m' dir = inr (Dir b).
Proof.
  unfold MkdirAll. destruct (Stat m dir) as [e|n] eqn:HS.
  - intros H. destruct (mkdir_from_dir dir [] m m' true eq_refl H) as [b Hb].
    exists b. by apply Stat_dir.
  - destruct n; try done. intros [= <-]. by eexists.
Qed.

End OSMore.

(** ** Further properties of the log handlers *)

Module LogsMore.
Import GoStrings OS OSFacts OSMore GoIO manager overview Vocabulary Fleet Manager.

(** *** The overview *)

Lemma items_from (f : UserConfig → LogOverviewItem) (users : list UserConfig)
    (acc : list LogOverviewItem) :
  fold_left (fun items u => (items ++ [f u])%list) users acc = (acc ++ map f users)%list.
Proof.
  revert acc. induction users as [|u users IH]; intros acc; simpl.
  - by rewrite app_nil_r.
  - by rewrite IH, <- app_assoc.
Qed.

Lemma ListLogs_items (a : App) (w : World) (clock : Path → string) :
  Items (ListLogs a w clock).2
  = map (overviewItem a w clock (ResolveDataDir (store a))) (ListUsers (store a)).
Proof. unfold ListLogs. cbn [snd Items]. by rewrite items_from. Qed.

(** X1.  [ListLogs] always answers 200 with one item per user of the
    store, in the order of the store, and [Total] is their number.  The
    [i]-th item names the [i]-th user and the log file derived for it; it
    says [exists] with the size of the file when [os.Stat] succeeds, and
    [exists = false] with size 0 and no time when [os.Stat] fails, be the
    file missing or not: a log that cannot be looked at is never an
    error of the overview. *)
Theorem ListLogs_per_user (a : App) (w : World) (clock : Path → string) :
  (ListLogs a w clock).1 = 200 ∧
  Total (ListLogs a w clock).2 = Z.of_nat (length (ListUsers (store a))) ∧
  map UserID (Items (ListLogs a w clock).2) = map ID (ListUsers (store a)) ∧
  ∀ i u, ListUsers (store a) !! i = Some u →
    ∃ item, Items (ListLogs a w clock).2 !! i = Some item ∧
      UserID item = ID u ∧
      ItemLogFile item = logFileOf a (ID u) u ∧
      match Stat (fs w) (logFileOf a (ID u) u) with
      | inr n => Exists item = true ∧ SizeBytes item = Size n ∧
                 Mtime item = clock (logFileOf a (ID u) u)
      | inl _ => Exists item = false ∧ SizeBytes item = 0 ∧ Mtime item = EmptyString
      end.
Proof.
  split; [done|]. split.
  { pose proof (ListLogs_items a w clock) as HI. unfold ListLogs in *. cbn [snd Total Items] in *.
    rewrite HI. by rewrite List.length_map. }
  split.
  { rewrite ListLogs_items. rewrite map_map.
    apply map_ext. intros u. unfold overviewItem.
    destruct (Stat _ _) as [e|n]; [by destruct (IsNotExist e)|done]. }
  intros i u Hu. rewrite ListLogs_items.
  exists (overviewItem a w clock (ResolveDataDir (store a)) u). split.
  { change (map ?f ?l) with (f <$> l). by rewrite list_lookup_fmap, Hu. }
  unfold overviewItem, logFileOf.
  destruct (Stat _ _) as [e|n]; [by destruct (IsNotExist e)|done].
Qed.

(** *** Clearing a log *)

(** The world after [DeleteDebugLogs] is the one before, or the one
    before with the file system a granted truncation leaves. *)
Lemma DeleteDebugLogs_world (a : App) (param : string) (w : World) :
  (DeleteDebugLogs a param w).2 = w ∨
  ∃ user m,
    GetUser (store a) (TrimSpace param) = Some user ∧
    TrimSpace param ≠ EmptyString ∧
    log_cleared (DeleteDebugLogs a param w).1 (logFileOf a (TrimSpace param) user) ∧
    (DeleteDebugLogs a param w).2 = set_fs w m ∧
    (Truncate0 (fs w) (logFileOf a (TrimSpace param) user) = inr m ∨
     (∃ e, Truncate0 (fs w) (logFileOf a (TrimSpace param) user) = inl e) ∧
     OpenTrunc (fs w) (logFileOf a (TrimSpace param) user) = inr m).
Proof.
  unfold DeleteDebugLogs.
  destruct (String.eqb_spec (TrimSpace param) EmptyString) as [|Hid]; [by left|].
  destruct (GetUser (store a) (TrimSpace param)) as [user|] eqn:Hu; [|by left].
  fold (logFileOf a (TrimSpace param) user).
  destruct (match Stat (fs w) (logFileOf a (TrimSpace param) user) with
            | inl err => IsNotExist err
            | inr _ => false
            end); [by left|].
  destruct (Truncate0 _ _) as [e|m] eqn:HT.
  - destruct (OpenTrunc _ _) as [e'|m] eqn:HO.
    + left. by destruct (Running _).
    + right. exists user, m. split_and!; try done. right. split; [by exists e|done].
  - right. exists user, m. split_and!; try done. by left.
Qed.

(** X2.  [DeleteDebugLogs] changes at most one entry of the file system,
    a regular file, which keeps its permissions and loses its content.
    It adds no entry and removes none, and it leaves the log, the host
    name and the processes alone. *)
Theorem DeleteDebugLogs_frame (a : App) (param : string) (w : World) :
  (∃ q, ∀ p, p ≠ q → fs (DeleteDebugLogs a param w).2 !! p = fs w !! p) ∧
  (∀ p n, fs w !! p = Some n →
     fs (DeleteDebugLogs a param w).2 !! p = Some n ∨
     ∃ perm d, n = File perm d ∧
               fs (DeleteDebugLogs a param w).2 !! p = Some (File perm EmptyString)) ∧
  (∀ p, fs w !! p = None → fs (DeleteDebugLogs a param w).2 !! p = None) ∧
  logs (DeleteDebugLogs a param w).2 = logs w ∧
  hostname (DeleteDebugLogs a param w).2 = hostname w ∧
  procs (DeleteDebugLogs a param w).2 = procs w.
Proof.
  destruct (DeleteDebugLogs_world a param w) as [->|(user & m & _ & _ & _ & -> & Hm)].
  { split_and!; try done; [by exists []|]. intros p n Hp. by left. }
  assert (Hshape : ∃ q perm d, fs w !! q = Some (File perm d) ∧
                               m = <[q := File perm EmptyString]> (fs w)).
  { destruct Hm as [HT|[_ HO]].
    - apply Truncate0_shape in HT as (q & perm & d & _ & HL & _ & ->).
      exists q, perm, d. split; [|done]. apply Lstat_lookup; [done|by intros ->].
    - apply OpenTrunc_shape in HO as (q & perm & d & _ & HL & _ & ->).
      exists q, perm, d. split; [|done]. apply Lstat_lookup; [done|by intros ->]. }
  destruct Hshape as (q & perm & d & Hq & ->). cbn [fs set_fs].
  split_and!; try done.
  - exists q. intros p Hp. by rewrite lookup_insert_ne.
  - intros p n Hp. destruct (decide (p = q)) as [->|Hne].
    + right. exists perm, d. rewrite lookup_insert_eq. split; congruence.
    + left. by rewrite lookup_insert_ne.
  - intros p Hp. rewrite lookup_insert_ne; [done|]. intros ->. congruence.
Qed.

(** X3.  [DeleteDebugLogs] answers 400 exactly when the id is blank, and
    404 exactly when the id is not blank and the store has no such user.
    The only answers are 200, 400, 404, 409 and 500, and whenever the
    answer is not 200 the world is the one before: nothing is touched
    before the request is found valid, and a failed clearing leaves no
    trace. *)
Theorem DeleteDebugLogs_answers (a : App) (param : string) (w : World) :
  (status (DeleteDebugLogs a param w).1 = 400 ↔ TrimSpace param = EmptyString) ∧
  (status (DeleteDebugLogs a param w).1 = 404 ↔
   TrimSpace param ≠ EmptyString ∧ GetUser (store a) (TrimSpace param) = None) ∧
  status (DeleteDebugLogs a param w).1 ∈ [200; 400; 404; 409; 500] ∧
  (status (DeleteDebugLogs a param w).1 ≠ 200 → (DeleteDebugLogs a param w).2 = w).
Proof.
  assert (codes : ∀ c : Z, c = 200 ∨ c = 400 ∨ c = 404 ∨ c = 409 ∨ c = 500 →
                           c ∈ [200; 400; 404; 409; 500]).
  { intros c H. repeat (apply elem_of_cons; destruct H as [->|H]; [by left|right]).
    subst. by apply elem_of_cons; left. }
  unfold DeleteDebugLogs,
    StatusOK, StatusBadRequest, StatusNotFound, StatusConflict, StatusInternalServerError.
  destruct (String.eqb_spec (TrimSpace param) EmptyString) as [Hid|Hid].
  { cbn. split_and!; try done; [split; [done|by intros [? _]]|apply codes; tauto]. }
  destruct (GetUser (store a) (TrimSpace param)) as [user|] eqn:Hu.
  2: { cbn. split_and!; try done. apply codes; tauto. }
  destruct (match Stat (fs w) _ with inl err => IsNotExist err | inr _ => false end).
  { cbn. split_and!; try done; [split; [done|by intros [_ ?]]|apply codes; tauto]. }
  destruct (Truncate0 _ _) as [e|m].
  - destruct (OpenTrunc _ _) as [e'|m].
    + destruct (Running _); cbn;
        (split_and!; try done; [split; [done|by intros [_ ?]]|apply codes; tauto]).
    + cbn. split_and!; try done; [split; [done|by intros [_ ?]]|apply codes; tauto].
  - cbn. split_and!; try done; [split; [done|by intros [_ ?]]|apply codes; tauto].
Qed.

(** The run of [DeleteDebugLogs] when a truncation is granted. *)
Lemma DeleteDebugLogs_granted (a : App) (param : string) (w : World) (user : UserConfig)
    (m : gmap Path Node) :
  TrimSpace param ≠ EmptyString →
  GetUser (store a) (TrimSpace param) = Some user →
  (Truncate0 (fs w) (logFileOf a (TrimSpace param) user) = inr m ∨
   (∃ e, Truncate0 (fs w) (logFileOf a (TrimSpace param) user) = inl e) ∧
   OpenTrunc (fs w) (logFileOf a (TrimSpace param) user) = inr m) →
  DeleteDebugLogs a param w =
    (c_JSON StatusOK (cleared (logFileOf a (TrimSpace param) user) "日志已清空") fresh,
     set_fs w m).
Proof.
  intros Hid Hu Hm. unfold DeleteDebugLogs.
  destruct (String.eqb_spec (TrimSpace param) EmptyString) as [|_]; [done|].
  rewrite Hu. fold (logFileOf a (TrimSpace param) user).
  assert (Hthere : ∃ n, Stat (fs w) (logFileOf a (TrimSpace param) user) = inr n).
  { destruct Hm as [HT|[_ HO]].
    - apply Truncate0_shape in HT as (q & perm & d & HR & HL & _).
      eexists. by eapply Stat_of_resolved.
    - apply OpenTrunc_shape in HO as (q & perm & d & HR & HL & _).
      eexists. by eapply Stat_of_resolved. }
  destruct Hthere as [n ->].
  destruct Hm as [->|[[e ->] ->]]; done.
Qed.

(** X4.  [DeleteDebugLogs] is idempotent: asked again in the world it
    left, it gives the same answer and leaves that world as it is. *)
Theorem DeleteDebugLogs_idempotent (a : App) (param : string) (w : World) :
  DeleteDebugLogs a param (DeleteDebugLogs a param w).2 = DeleteDebugLogs a param w.
Proof.
  destruct (DeleteDebugLogs_world a param w)
    as [->|(user & m & Hu & Hid & _ & Hw & Hm)]; [done|].
  rewrite (DeleteDebugLogs_granted a param w user m Hid Hu Hm).
  cbn [snd].
  rewrite (DeleteDebugLogs_granted a param (set_fs w m) user m Hid Hu).
  - by destruct w.
  - cbn [fs set_fs]. destruct Hm as [HT|[[e HT] HO]].
    + left. by eapply Truncate0_again.
    + right. split; [|by eapply OpenTrunc_again].
      exists EACCES. by eapply Truncate0_refused_again.
Qed.

Lemma cleared_messages_differ (logFile : Path) :
  (list_to_map (cleared logFile "日志文件不存在，无需清空") : gmap string JSON)
  ≠ list_to_map (cleared logFile "日志已清空").
Proof.
  intros H. apply (f_equal (fun m : gmap string JSON => m !! "message")) in H.
  vm_compute in H. discriminate.
Qed.

(** The answer "cleared" is given only after a granted truncation. *)
Lemma DeleteDebugLogs_cleared (a : App) (param : string) (w : World) (user : UserConfig) :
  TrimSpace param ≠ EmptyString →
  GetUser (store a) (TrimSpace param) = Some user →
  log_cleared (DeleteDebugLogs a param w).1 (logFileOf a (TrimSpace param) user) →
  ∃ q perm d,
    resolve 40 (fs w) (logFileOf a (TrimSpace param) user) = inr q ∧
    Lstat (fs w) q = inr (File perm d) ∧
    (DeleteDebugLogs a param w).2 = set_fs w (<[q := File perm EmptyString]> (fs w)).
Proof.
  intros Hid Hu [Hst Hjs]. revert Hst Hjs. unfold DeleteDebugLogs.
  destruct (String.eqb_spec (TrimSpace param) EmptyString) as [|_]; [done|].
  rewrite Hu. fold (logFileOf a (TrimSpace param) user).
  destruct (match Stat (fs w) _ with inl err => IsNotExist err | inr _ => false end).
  { cbn [fst status json c_JSON]. intros _ H. exfalso.
    apply (cleared_messages_differ (logFileOf a (TrimSpace param) user)). congruence. }
  destruct (Truncate0 _ _) as [e|m] eqn:HT.
  - destruct (OpenTrunc _ _) as [e'|m] eqn:HO.
    + by destruct (Running _).
    + intros _ _. apply OpenTrunc_shape in HO as (q & perm & d & HR & HL & _ & ->).
      by exists q, perm, d.
  - intros _ _. apply Truncate0_shape in HT as (q & perm & d & HR & HL & _ & ->).
    by exists q, perm, d.
Qed.

(** X5.  After [DeleteDebugLogs] has answered that the log was cleared,
    [ListLogs] lists the log of that user as existing, with size 0. *)
Theorem cleared_log_listed_empty (a : App) (param : string) (w : World)
    (user : UserConfig) (clock : Path → string) (i : nat) :
  TrimSpace param ≠ EmptyString →
  GetUser (store a) (TrimSpace param) = Some user →
  ID user = TrimSpace param →
  ListUsers (store a) !! i = Some user →
  log_cleared (DeleteDebugLogs a param w).1 (logFileOf a (TrimSpace param) user) →
  ∃ item,
    Items (ListLogs a (DeleteDebugLogs a param w).2 clock).2 !! i = Some item ∧
    UserID item = TrimSpace param ∧
    Exists item = true ∧
    SizeBytes item = 0.
Proof.
  intros Hid Hu HID Hi Hc.
  destruct (DeleteDebugLogs_cleared a param w user Hid Hu Hc)
    as (q & perm & d & HR & HL & ->).
  rewrite ListLogs_items.
  exists (overviewItem a (set_fs w (<[q := File perm EmptyString]> (fs w))) clock
            (ResolveDataDir (store a)) user).
  split.
  { change (map ?f ?l) with (f <$> l). by rewrite list_lookup_fmap, Hi. }
  unfold overviewItem. cbn [fs set_fs]. rewrite HID.
  fold (logFileOf a (TrimSpace param) user).
  by rewrite (Stat_after_rewrite _ _ _ _ _ HR HL).
Qed.

(** The log of alice, cleared and listed. *)
Lemma cleared_log_listed_empty_witness :
  ∃ item,
    Items (ListLogs (app true)
             (DeleteDebugLogs (app true) " alice " (host (log_disk rw "boot"))).2
             (fun _ => "2026-10-31T00:00:00Z")).2 !! 0%nat = Some item ∧
    UserID item = "alice" ∧ Exists item = true ∧ SizeBytes item = 0.
Proof.
  apply (cleared_log_listed_empty (app true) " alice " (host (log_disk rw "boot")) alice
           (fun _ => "2026-10-31T00:00:00Z") 0); try done.
Defined.

(** *** Downloading a log *)

(** The loop writes no more than the limited reader lets through. *)
Lemma copy_loop_bound (t : Transfer) (bufsize : nat) :
  ∀ fuel k off N written out err,
    copy_loop fuel t bufsize k off N written = Some (out, err) →
    (length out ≤ length written + N)%nat.
Proof.
  induction fuel as [|fuel IH]; intros k off N written out err H; [done|].
  cbn [copy_loop] in H. destruct (Nat.eqb_spec N 0) as [->|HN].
  { simplify_eq. lia. }
  destruct (read_error t); [simplify_eq; lia|].
  set (chunk := file_read (file_at t k) off (Nat.min bufsize N)) in *.
  assert (Hchunk : (length chunk ≤ N)%nat).
  { unfold chunk, file_read. rewrite length_take. lia. }
  destruct (Nat.eqb_spec (length chunk) 0); [simplify_eq; lia|].
  destruct (accepts _ _); [|simplify_eq; lia].
  apply IH in H. rewrite length_app in H. lia.
Qed.

Lemma CopyN_bound (t : Transfer) (n : Z) (out : list ascii) (err : option CopyError) :
  CopyN t n = Some (out, err) → (length out ≤ Z.to_nat n)%nat.
Proof.
  unfold CopyN.
  destruct (copy_loop _ _ _ _ _ _ _) as [[written e]|] eqn:H; [|done].
  apply copy_loop_bound in H. simpl in H.
  destruct (_ =? _)%nat; [intros; simplify_eq; lia|].
  destruct e; intros; simplify_eq; lia.
Qed.

Lemma Size_nonneg (n : Node) : 0 ≤ Size n.
Proof. destruct n; simpl; lia. Qed.

(** X6.  Whatever happens to the file and to the connection during the
    transfer, a 200 answer of [DownloadDebugLogs] declares a
    Content-Length and its body is never longer than that. *)
Theorem download_never_exceeds (a : App) (param : string) (w : World) (d : Download)
    (c : Context) :
  DownloadDebugLogs a param w d = Some c →
  status c = 200 →
  ∃ n, header c !! "Content-Length" = Some (pretty n) ∧
       Z.of_nat (length (body c)) ≤ n.
Proof.
  unfold DownloadDebugLogs.
  destruct (String.eqb _ _); [by intros [= <-]|].
  destruct (GetUser _ _) as [user|]; [|by intros [= <-]].
  destruct (Open _ _) as [e|f]; [destruct (IsNotExist e); by intros [= <-]|].
  destruct (fstat d) as [e|modTime]; [by intros [= <-]|].
  destruct (CopyN (transfer d) (Size f)) as [[written err]|] eqn:HC; [|done].
  apply CopyN_bound in HC. pose proof (Size_nonneg f) as Hsz.
  intros Hc _. exists (Size f).
  destruct err as [[]|]; simplify_eq; cbn; (split; [done|lia]).
Qed.

(** The connection of [limited] breaks after 4 bytes. *)
Lemma download_never_exceeds_witness :
  ∃ c, DownloadDebugLogs (app true) "alice" (host (log_disk rw "hello log"))
         (limited "hello log" 4) = Some c ∧
       header c !! "Content-Length" = Some "9" ∧
       Z.of_nat (length (body c)) ≤ 9.
Proof.
  destruct (DownloadDebugLogs_total (app true) "alice" (host (log_disk rw "hello log"))
              (limited "hello log" 4)) as [c Hc].
  destruct (download_never_exceeds _ _ _ _ c Hc) as (n & Hn & Hle).
  { vm_compute in Hc. by simplify_eq. }
  exists c. split; [done|]. vm_compute in Hc. simplify_eq. by vm_compute.
Defined.

(** A file found empty at the first read ends the copy at once. *)
Lemma CopyN_emptied (t : Transfer) (n : Z) :
  read_error t = None → file_at t 0 = [] →
  CopyN t n = Some ([], if (Z.to_nat n =? 0)%nat then None else Some EOF).
Proof.
  intros Hread Hempty. unfold CopyN. cbn [copy_loop].
  destruct (Nat.eqb_spec (Z.to_nat n) 0) as [->|Hn]; [done|].
  rewrite Hread, Hempty. unfold file_read. rewrite drop_nil, take_nil. cbn.
  by destruct (Z.to_nat n).
Qed.

(** X7.  When the log is emptied after its size was read and before the
    first read of the copy (as a clearing of the log does), the handler
    still declares the size it read, sends no byte at all, records no
    error and flushes: [io.EOF] from [io.CopyN] is let through, so that
    fewer bytes are sent than were declared whenever the log was not
    empty. *)
Theorem download_of_emptied_log (a : App) (param : string) (w : World) (d : Download)
    (user : UserConfig) (perm : FilePerm) (data modTime : string) :
  let id := TrimSpace param in
  id ≠ EmptyString →
  GetUser (store a) id = Some user →
  Open (fs w) (logFileOf a id user) = inr (File perm data) →
  fstat d = inr modTime →
  read_error (transfer d) = None →
  file_at (transfer d) 0 = [] →
  ∃ c, DownloadDebugLogs a param w d = Some c ∧
       status c = 200 ∧
       header c !! "Content-Length" = Some (pretty (Z.of_nat (String.length data))) ∧
       body c = [] ∧
       errors c = [] ∧
       flushed c = true ∧
       (data ≠ EmptyString → Z.of_nat (length (body c)) < Z.of_nat (String.length data)).
Proof.
  intros id Hid Huser Hopen Hstat Hread Hempty.
  unfold DownloadDebugLogs. fold id.
  destruct (String.eqb_spec id EmptyString) as [|_]; [done|].
  rewrite Huser. fold (logFileOf a id user). rewrite Hopen, Hstat.
  rewrite (CopyN_emptied _ _ Hread Hempty).
  destruct (_ =? _)%nat; (eexists; split; [reflexivity|]; cbn;
    split_and!; try done; intros Hd; destruct data; [done|simpl; lia]).
Qed.

(** Nine bytes are declared for the log of alice and none is sent. *)
Lemma download_of_emptied_log_witness :
  ∃ c, DownloadDebugLogs (app true) "alice" (host (log_disk rw "hello log")) emptied
         = Some c ∧
       header c !! "Content-Length" = Some "9" ∧
       body c = [] ∧ errors c = [] ∧ flushed c = true.
Proof.
  destruct (download_of_emptied_log (app true) "alice" (host (log_disk rw "hello log"))
              emptied alice rw "hello log" "Sat, 31 Oct 2026 00:00:00 GMT")
    as (c & Hc & _ & Hlen & Hbody & Herr & Hfl & _); try done.
  exists c. by split_and!.
Defined.




(** X9.  After [DeleteDebugLogs] has answered that a log that could be
    read was cleared, [DownloadDebugLogs] of the same user answers 200
    with Content-Length 0 and an empty body, without an error, whatever
    the worker writes to the log during the transfer. *)
Theorem download_after_clear (a : App) (param : string) (w : World) (d : Download)
    (user : UserConfig) (perm : FilePerm) (data modTime : string) :
  let id := TrimSpace param in
  id ≠ EmptyString →
  GetUser (store a) id = Some user →
  Open (fs w) (logFileOf a id user) = inr (File perm data) →
  log_cleared (DeleteDebugLogs a param w).1 (logFileOf a id user) →
  fstat d = inr modTime →
  ∃ c, DownloadDebugLogs a param (DeleteDebugLogs a param w).2 d = Some c ∧
       status c = 200 ∧
       header c !! "Content-Length" = Some "0" ∧
       body c = [] ∧
       errors c = [] ∧
       flushed c = true.
Proof.
  intros id Hid Huser Hopen Hcleared Hstat. subst id.
  destruct (DeleteDebugLogs_cleared a param w user Hid Huser Hcleared)
    as (q & perm' & d' & HR & HL & ->).
  assert (Hperm : perm' = perm ∧ can_read perm = true).
  { unfold Open in Hopen. rewrite (Stat_of_resolved _ _ _ _ HR HL) in Hopen.
    destruct (can_read perm') eqn:Hc; [|done]. by simplify_eq. }
  destruct Hperm as [-> Hread].
  unfold DownloadDebugLogs.
  destruct (String.eqb_spec (TrimSpace param) EmptyString) as [|_]; [done|].
  rewrite Huser. fold (logFileOf a (TrimSpace param) user). cbn [fs set_fs].
  unfold Open. rewrite (Stat_after_rewrite _ _ _ _ _ HR HL), Hread, Hstat.
  eexists. split; [reflexivity|]. by cbn.
Qed.

(** The log of alice, cleared and then downloaded while it grows. *)
Lemma download_after_clear_witness :
  ∃ c, DownloadDebugLogs (app true) " alice "
         (DeleteDebugLogs (app true) " alice " (host (log_disk rw "hello log"))).2
         (growing "") = Some c ∧
       header c !! "Content-Length" = Some "0" ∧ body c = [].
Proof.
  destruct (download_after_clear (app true) " alice " (host (log_disk rw "hello log"))
              (growing "") alice rw "hello log" "Sat, 31 Oct 2026 00:00:00 GMT")
    as (c & Hc & _ & Hlen & Hbody & _); try done.
  exists c. by split_and!.
Defined.

End LogsMore.

(** ** Further properties of auto-start recovery *)

Module AutoStartMore.
Import GoStrings OS GoIO manager Vocabulary Fleet Manager.

(** The trace of [autoStartUsers], attempt by attempt. *)
Lemma autoStart_trace (s : Store) (start : StartUserFn) :
  autoStartUsers s start =
    match List.filter AutoStart (ListUsers s) with
    | [] => []
    | u :: us =>
        found (length (u :: us))
        :: concat (zip_with (attempt s) (u :: us)
                     (answers s start [found (length (u :: us))] (u :: us)))
    end.
Proof.
  unfold autoStartUsers. rewrite selectAutoStart_filter.
  destruct (List.filter AutoStart (ListUsers s)) as [|u us]; [done|].
  change (length (u :: us) =? 0)%nat with false. cbv iota.
  by rewrite run_attempts.
Qed.

Lemma failed_ids_attempts (s : Store) (us : list UserConfig)
    (rs : list (option StartError)) :
  length rs = length us →
  failed_ids (concat (zip_with (attempt s) us rs)) = failing us rs.
Proof.
  revert rs. induction us as [|u us IH]; intros [|r rs] Hlen; try done.
  cbn [zip_with concat failing]. unfold failed_ids in *. rewrite omap_app.
  rewrite IH by (simpl in Hlen; lia). by destruct r.
Qed.

(** X10.  The ids [autoStartUsers] names on the standard error are those
    of the flagged users whose start failed, each once per failed start
    and in the order of the attempts: no failure goes unreported and no
    success is reported as a failure. *)
Theorem autoStart_reports_failures (s : Store) (start : StartUserFn) :
  let toStart := List.filter AutoStart (ListUsers s) in
  failed_ids (autoStartUsers s start)
  = failing toStart (answers s start [found (length toStart)] toStart).
Proof.
  intros toStart. rewrite autoStart_trace. fold toStart.
  destruct toStart as [|u us] eqn:E; [done|].
  change (failed_ids (found ?n :: ?l)) with (failed_ids l).
  apply failed_ids_attempts. by rewrite answers_length.
Qed.

Lemma filter_nil_Forall (users : list UserConfig) :
  List.filter AutoStart users = [] ↔ Forall (fun u => AutoStart u = false) users.
Proof.
  induction users as [|u users IH]; simpl.
  - split; [constructor|done].
  - destruct (AutoStart u) eqn:E.
    + split; [done|]. intros H. inversion H; congruence.
    + rewrite IH. split; [by constructor|]. intros H. by inversion H.
Qed.

(** X11.  [autoStartUsers] does nothing at all, and prints nothing,
    exactly when no user is flagged.  Otherwise the first thing it does
    is to print the number of users it is about to start, and that
    number is the number of calls of [proc.StartUser] it goes on to
    make. *)
Theorem autoStart_announcement (s : Store) (start : StartUserFn) :
  (autoStartUsers s start = [] ↔
   Forall (fun u => AutoStart u = false) (ListUsers s)) ∧
  (autoStartUsers s start ≠ [] →
   ∃ rest, autoStartUsers s start
           = found (length (starts (autoStartUsers s start))) :: rest ∧
           (0 < length (starts (autoStartUsers s start)))%nat).
Proof.
  rewrite <- filter_nil_Forall, autoStart_trace.
  destruct (List.filter AutoStart (ListUsers s)) as [|u us] eqn:E.
  - split; [done|]. by intros [].
  - split; [done|]. intros _.
    change (starts (found ?n :: ?l)) with (starts l).
    rewrite starts_attempts by (by rewrite answers_length).
    rewrite List.length_map. eexists. split; [reflexivity|]. simpl. lia.
Qed.

End AutoStartMore.

(** ** Further properties of reclamation *)

Module ReclaimMore.
Import GoStrings OS OSFacts OSMore browser BrowserFacts Vocabulary Hosts Reclaim.

(** *** When reclamation is withheld *)

(** X12.  [isStaleProfile] answers "not stale" in one case only: the
    cookie can be read, the host name read from it is empty or that of
    the current host, the process id read from it is positive, the host
    is not Windows and /proc/<pid> is there.  In every other case the
    profile is stale. *)
Theorem not_stale_iff (dir : Path) (w : World) :
  (isStaleProfile dir w).1 = false ↔
  ∃ content host pid cur,
    ReadFile (fs w) (Join dir "SingletonCookie") = inr content ∧
    parseCookie content = (host, pid) ∧
    hostname w = inr cur ∧
    (host = EmptyString ∨ host = cur) ∧
    0 < pid ∧
    GOOS w ≠ "windows" ∧
    ∃ n, Stat (fs w) (procPath pid) = inr n.
Proof.
  split.
  - unfold isStaleProfile.
    destruct (ReadFile _ _) as [e|content] eqn:HR; [by destruct (IsNotExist e)|].
    destruct (String.eqb content EmptyString); [done|].
    destruct (parseCookie content) as [host pid] eqn:HP.
    destruct (hostname w) as [e|cur] eqn:HH; [done|].
    destruct (String.eqb_spec host EmptyString) as [He|He];
      destruct (String.eqb_spec host cur) as [Hc|Hc]; cbn [negb andb]; try done;
      (destruct (Z.ltb_spec 0 pid) as [Hpos|]; [|done]);
      unfold isProcessAlive;
      (destruct (String.eqb_spec (GOOS w) "windows") as [|HG]; [done|]);
      (destruct (Stat (fs w) (procPath pid)) as [e|n] eqn:HS; [done|]);
      intros _; exists content, host, pid, cur; split_and!; eauto.
  - intros (content & host & pid & cur & HR & HP & HH & Hhost & Hpos & HG & n & HS).
    assert (Hne : content ≠ EmptyString)
      by (eapply parsed_nonempty; [done|right; lia]).
    rewrite (isStaleProfile_parsed dir w content host cur pid HR Hne HP HH).
    assert (Hmis : negb (String.eqb host EmptyString) && negb (String.eqb host cur) = false).
    { destruct Hhost as [-> | ->]; [done|]. by rewrite String.eqb_refl, andb_false_r. }
    rewrite Hmis. destruct (Z.ltb_spec 0 pid); [|lia].
    unfold isProcessAlive.
    destruct (String.eqb_spec (GOOS w) "windows") as [|_]; [done|]. by rewrite HS.
Qed.

(** *** A host that cannot tell its name *)

Lemma hostname_error_stale (dir : Path) (w : World) (e : Errno) :
  hostname w = inl e → (isStaleProfile dir w).1 = true.
Proof.
  intros HH. unfold isStaleProfile.
  destruct (ReadFile _ _) as [e'|content]; [by destruct (IsNotExist e')|].
  destruct (String.eqb content EmptyString); [done|].
  destruct (parseCookie content). by rewrite HH.
Qed.

(** X13.  When [os.Hostname] fails, every profile is found stale and
    the six lock names are deleted, whatever the cookie says and whether
    or not its process is alive; with a cookie that has a content, the
    failure is the one line [isStaleProfile] logs. *)
Theorem hostname_error_fail_open (dir : Path) (w : World) (e : Errno) :
  hostname w = inl e →
  (isStaleProfile dir w).1 = true ∧
  (∀ content, ReadFile (fs w) (Join dir "SingletonCookie") = inr content →
     content ≠ EmptyString →
     logs (isStaleProfile dir w).2 = (logs w ++ [hostname_failed e])%list) ∧
  ∀ p, p ∈ lockPaths dir → reclaimed w (cleanupChromeLocks dir w) p.
Proof.
  intros HH. split; [by eapply hostname_error_stale|]. split.
  - intros content HR Hne. unfold isStaleProfile. rewrite HR.
    destruct (String.eqb_spec content EmptyString) as [|_]; [done|].
    destruct (parseCookie content). by rewrite HH.
  - apply cleanup_stale. intros m _. by eapply hostname_error_stale.
Qed.

(** A host without a name: the locks of the live process 4242 go. *)
Lemma hostname_error_fail_open_witness :
  (isStaleProfile profile (nameless (cookie "host-a" "4242"))).1 = true ∧
  reclaimed (nameless (cookie "host-a" "4242"))
    (cleanupChromeLocks profile (nameless (cookie "host-a" "4242")))
    (Join profile "SingletonLock") ∧
  fs (cleanupChromeLocks profile (nameless (cookie "host-a" "4242"))) = clean_disk true.
Proof.
  destruct (hostname_error_fail_open profile (nameless (cookie "host-a" "4242")) EINVAL)
    as (HS & _ & HR); [done|].
  split; [exact HS|]. split; [|by vm_compute].
  apply HR. unfold lockPaths, lockFiles. simpl. apply elem_of_cons. by left.
Defined.

(** *** What reclamation adds *)



(** *** Running reclamation again *)

Lemma no_artifact_settled (m : gmap Path Node) (p : Path) :
  no_artifact m p → settled m p.
Proof. intros H n Hn Hk. rewrite (H n Hn) in Hk. done. Qed.

Lemma removeLockFile_settled (p : Path) (w : World) :
  settled (fs w) p → fs (removeLockFile p w) = fs w.
Proof.
  intros Hs. unfold removeLockFile.
  destruct (Lstat (fs w) p) as [e|n] eqn:HL; [by destruct (IsNotExist e)|].
  rewrite removable_lock_kind. destruct (lock_kind n) eqn:Hk; [|done].
  specialize (Hs n HL Hk). unfold Remove.
  destruct p as [|c p]; [done|]. rewrite HL.
  destruct (Lstat (fs w) (parent (c :: p))) as [e|[| [] | | |]]; done.
Qed.

Lemma removeLockFile_settles (p : Path) (w : World) :
  p ≠ [] → settled (fs (removeLockFile p w)) p.
Proof.
  intros Hp. unfold removeLockFile.
  destruct (Lstat (fs w) p) as [e|n] eqn:HL.
  { assert (H : settled (fs w) p) by (intros n Hn; congruence).
    by destruct (IsNotExist e). }
  rewrite removable_lock_kind. destruct (lock_kind n) eqn:Hk.
  - destruct (Remove (fs w) p) as [e|m] eqn:HR.
    + intros x Hx _. simpl in *. rewrite HL in Hx. simplify_eq.
      eapply Remove_inl; eauto. intros b ->. done.
    + apply Remove_inr in HR as (-> & _ & _). simpl.
      intros x Hx. by apply Lstat_delete_self in Hx.
  - intros x Hx. rewrite HL in Hx. simplify_eq. congruence.
Qed.

Lemma settled_shrink (S : list Path) (m m' : gmap Path Node) (p : Path) :
  shrink S m m' → settled m p → settled m' p.
Proof.
  intros Hs Hm n Hn Hk Hpar.
  apply (Hm n); [by eapply walk_shrink|done|by eapply walk_shrink].
Qed.

Lemma removeLockFiles_settles (dir : Path) (w : World) (p : Path) :
  p ∈ map (Join dir) lockFiles → settled (fs (removeLockFiles dir w)) p.
Proof.
  unfold removeLockFiles. simpl. intros Hp.
  apply elem_of_cons in Hp as [->|Hp]; [|apply elem_of_cons in Hp as [->|Hp]].
  - eapply settled_shrink; [apply removeLockFile_shrink|].
    eapply settled_shrink; [apply removeLockFile_shrink|].
    apply removeLockFile_settles, Join_nonempty.
  - eapply settled_shrink; [apply removeLockFile_shrink|].
    apply removeLockFile_settles, Join_nonempty.
  - apply list_elem_of_singleton in Hp as ->.
    apply removeLockFile_settles, Join_nonempty.
Qed.

Lemma removeLockFiles_settled (dir : Path) (w : World) :
  (∀ p, p ∈ map (Join dir) lockFiles → settled (fs w) p) →
  fs (removeLockFiles dir w) = fs w.
Proof.
  intros H. unfold removeLockFiles. simpl.
  assert (H1 : fs (removeLockFile (Join dir "SingletonLock") w) = fs w).
  { apply removeLockFile_settled, H. unfold lockFiles. simpl. apply elem_of_cons. by left. }
  assert (H2 : fs (removeLockFile (Join dir "SingletonSocket")
                     (removeLockFile (Join dir "SingletonLock") w)) = fs w).
  { etrans; [|exact H1]. apply removeLockFile_settled. rewrite H1. apply H.
    unfold lockFiles. simpl. apply elem_of_cons; right. apply elem_of_cons. by left. }
  etrans; [|exact H2]. apply removeLockFile_settled. rewrite H2. apply H.
  unfold lockFiles. simpl. do 2 (apply elem_of_cons; right). apply elem_of_cons. by left.
Qed.

(** Removing lock artifacts does not take a directory away. *)
Lemma walk_shrink_dir (S : list Path) (m m' : gmap Path Node) (rest cur : Path) (b : bool) :
  shrink S m m' → walk m cur rest = inr (Dir b) → walk m' cur rest = inr (Dir b).
Proof.
  intros Hs. revert cur. induction rest as [|c rest IH]; intros cur Hw; [done|].
  cbn [walk] in *.
  destruct (m !! (cur ++ [c])%list) as [x|] eqn:Hx; [|done].
  assert (Hd : ∃ b', x = Dir b').
  { destruct rest; [simplify_eq; by eexists|]. destruct x; try done. by eexists. }
  destruct Hd as [b' ->].
  destruct (Hs (cur ++ [c])%list) as [E|(_ & _ & n & Hn & Hk)].
  - rewrite E, Hx. destruct rest; [done|]. by apply IH.
  - rewrite Hx in Hn. by simplify_eq.
Qed.

Lemma root_paths (dir : Path) (p : Path) :
  p ∈ map (Join dir) lockFiles → p ∈ lockPaths dir.
Proof. intros H. apply elem_of_app. by left. Qed.

Lemma default_paths (dir : Path) (p : Path) :
  p ∈ map (Join (Join dir "Default")) lockFiles → p ∈ lockPaths dir.
Proof. intros H. apply elem_of_app. by right. Qed.

(** Of a profile path that is not itself a directory in the map,
    reclamation removes nothing. *)
Lemma stale_run_without_dir (dir : Path) (w : World) :
  (∀ b, Lstat (fs w) dir ≠ inr (Dir b)) →
  fs (match Stat (fs (removeLockFiles dir w)) (Join dir "Default") with
      | inr _ => removeLockFiles (Join dir "Default") (removeLockFiles dir w)
      | inl _ => removeLockFiles dir w
      end) = fs w.
Proof.
  intros Hd.
  assert (H3 : fs (removeLockFiles dir w) = fs w).
  { apply removeLockFiles_settled. intros p Hp. apply no_artifact_settled.
    eapply below_missing_dir; [done|by apply root_paths]. }
  destruct (Stat _ _); [done|]. etrans; [|exact H3].
  apply removeLockFiles_settled. intros p Hp. apply no_artifact_settled.
  rewrite H3. eapply below_missing_dir; [done|by apply default_paths].
Qed.

(** The file system a stale run leaves, seen from the one it found. *)
Lemma stale_run_shrink (dir : Path) (w : World) :
  shrink (lockPaths dir) (fs w)
    (fs (match Stat (fs (removeLockFiles dir w)) (Join dir "Default") with
         | inr _ => removeLockFiles (Join dir "Default") (removeLockFiles dir w)
         | inl _ => removeLockFiles dir w
         end)).
Proof.
  assert (S1 : shrink (lockPaths dir) (fs w) (fs (removeLockFiles dir w))).
  { eapply shrink_mono; [|apply removeLockFiles_shrink]. intros x. apply root_paths. }
  destruct (Stat _ _); [done|].
  eapply shrink_trans; [exact S1|].
  eapply shrink_mono; [|apply removeLockFiles_shrink]. intros x. apply default_paths.
Qed.

(** The profile directory as [os.MkdirAll] left it is there after the
    removals. *)
Lemma cleanup_keeps_dir (dir : Path) (w : World) (m1 : gmap Path Node) :
  MkdirAll (fs w) dir = inr m1 →
  ∃ b, Stat (fs (cleanupChromeLocks dir w)) dir = inr (Dir b).
Proof.
  intros HM. destruct (MkdirAll_Stat _ _ _ HM) as [b Hb].
  unfold cleanupChromeLocks. rewrite HM.
  destruct (isStaleProfile_world dir (set_fs w m1)) as [Hfs _].
  destruct (isStaleProfile dir (set_fs w m1)) as [stale w2]. cbn [snd fs set_fs] in Hfs.
  destruct stale; cbn [negb]; [|exists b; cbn [fs logf]; by rewrite Hfs].
  destruct (Lstat m1 dir) as [e|n] eqn:HL.
  { apply Stat_Lstat_err in HL. congruence. }
  destruct n as [fp fd|b'|t| |].
  2: { exists b'. apply Stat_dir.
       eapply walk_shrink_dir; [apply stale_run_shrink|]. by rewrite Hfs. }
  all: exists b; rewrite stale_run_without_dir; [by rewrite Hfs|];
       intros b'; rewrite Hfs; congruence.
Qed.

(** X15.  After [cleanupChromeLocks] the profile directory is there, as
    a directory, unless [os.MkdirAll] failed; in that case the failure
    is logged as a warning and nothing else is done. *)
Theorem cleanup_ensures_directory (dir : Path) (w : World) :
  (∃ b, Stat (fs (cleanupChromeLocks dir w)) dir = inr (Dir b)) ∨
  (∃ e, MkdirAll (fs w) dir = inl e ∧
        fs (cleanupChromeLocks dir w) = fs w ∧
        logs (cleanupChromeLocks dir w) = (logs w ++ [mkdir_failed e])%list).
Proof.
  destruct (MkdirAll (fs w) dir) as [e|m1] eqn:HM.
  - right. exists e. split; [done|]. unfold cleanupChromeLocks. by rewrite HM.
  - left. by eapply cleanup_keeps_dir.
Qed.

(** The verdict depends on the file system, the host name and [GOOS],
    and on nothing else. *)
Lemma verdict_same (dir : Path) (w1 w2 : World) :
  fs w1 = fs w2 → hostname w1 = hostname w2 → GOOS w1 = GOOS w2 →
  (isStaleProfile dir w1).1 = (isStaleProfile dir w2).1.
Proof.
  intros Hfs HH HG. unfold isStaleProfile, isProcessAlive. rewrite Hfs, HH, HG.
  destruct (ReadFile _ _) as [e|content]; [by destruct (IsNotExist e)|].
  destruct (String.eqb content EmptyString); [done|].
  destruct (parseCookie content) as [host pid].
  destruct (hostname w2) as [e|cur]; [done|].
  destruct (negb _ && negb _); [done|].
  destruct (0 <? pid); [|done].
  destruct (String.eqb (GOOS w2) "windows"); [done|].
  by destruct (Stat (fs w2) (procPath pid)).
Qed.

(** What a first run leaves for a second one, when the directory could
    be made: a profile that is not stale, or lock names that are settled
    (those under Default when they were visited). *)
Lemma first_run_facts (dir : Path) (w : World) (m1 : gmap Path Node) :
  MkdirAll (fs w) dir = inr m1 →
  (isStaleProfile dir (cleanupChromeLocks dir w)).1 = false ∨
  ((∀ p, p ∈ map (Join dir) lockFiles → settled (fs (cleanupChromeLocks dir w)) p) ∧
   ((∃ e, Stat (fs (cleanupChromeLocks dir w)) (Join dir "Default") = inl e) ∨
    ∀ p, p ∈ map (Join (Join dir "Default")) lockFiles →
         settled (fs (cleanupChromeLocks dir w)) p)).
Proof.
  intros HM. unfold cleanupChromeLocks. rewrite HM.
  destruct (isStaleProfile_world dir (set_fs w m1)) as [Hfs (HG & HH & _ & _)].
  destruct (isStaleProfile dir (set_fs w m1)) as [stale w2] eqn:HS.
  cbn [snd fs set_fs GOOS hostname] in *.
  destruct stale; cbn [negb].
  - right. destruct (Stat (fs (removeLockFiles dir w2)) (Join dir "Default")) as [e|n] eqn:HD.
    + split; [intros p Hp; by apply removeLockFiles_settles|]. left. by exists e.
    + split.
      * intros p Hp. eapply settled_shrink; [apply removeLockFiles_shrink|].
        by apply removeLockFiles_settles.
      * right. intros p Hp. by apply removeLockFiles_settles.
  - left.
    rewrite (verdict_same dir _ (set_fs w m1)); [by rewrite HS|done..].
Qed.

(** X16.  [cleanupChromeLocks] is idempotent on the file system: a
    second run on what the first one left removes nothing more and
    creates nothing. *)
Theorem cleanup_idempotent (dir : Path) (w : World) :
  fs (cleanupChromeLocks dir (cleanupChromeLocks dir w))
  = fs (cleanupChromeLocks dir w).
Proof.
  destruct (MkdirAll (fs w) dir) as [e|m1] eqn:HM.
  { assert (H1 : fs (cleanupChromeLocks dir w) = fs w)
      by (unfold cleanupChromeLocks; by rewrite HM).
    unfold cleanupChromeLocks at 1. by rewrite H1, HM. }
  destruct (cleanup_keeps_dir dir w m1 HM) as [b Hb].
  pose proof (first_run_facts dir w m1 HM) as Hfacts.
  set (w' := cleanupChromeLocks dir w) in *.
  unfold cleanupChromeLocks at 1.
  assert (HM' : MkdirAll (fs w') dir = inr (fs w')) by (unfold MkdirAll; by rewrite Hb).
  rewrite HM', set_fs_same.
  destruct (isStaleProfile_world dir w') as [Hfs _].
  destruct (isStaleProfile dir w') as [stale w2]. cbn [fst snd] in *.
  destruct stale; cbn [negb]; [|done].
  destruct Hfacts as [?|[Hroot Hdef]]; [done|].
  assert (H3 : fs (removeLockFiles dir w2) = fs w').
  { etrans; [|exact Hfs]. apply removeLockFiles_settled. intros p Hp.
    rewrite Hfs. by apply Hroot. }
  rewrite H3. destruct (Stat (fs w') (Join dir "Default")) as [e|n] eqn:HD; [done|].
  destruct Hdef as [[e ?]|Hdef]; [congruence|].
  etrans; [|exact H3]. apply removeLockFiles_settled. intros p Hp.
  rewrite H3. by apply Hdef.
Qed.


End ReclaimMore.

(** ** Writing a cookie and reading it back *)

Module ParseMore.
Import GoStrings GoStringsFacts OS browser Vocabulary Hosts Reclaim.

Lemma append_cons (c : ascii) (s t : string) :
  (String c s ++ t)%string = String c (s ++ t).
Proof. reflexivity. Qed.

Lemma append_snoc (cur : string) (c : ascii) (a : string) :
  (snoc cur c ++ a)%string = (cur ++ String c a)%string.
Proof.
  unfold snoc. induction cur as [|d cur IH]; [done|].
  rewrite !append_cons. by f_equal.
Qed.

Lemma append_empty (s : string) : (s ++ EmptyString)%string = s.
Proof. induction s as [|c s IH]; [done|]. rewrite append_cons. by f_equal. Qed.

Lemma nul_free_cons (c : ascii) (s : string) :
  nul_free (String c s) → Ascii.eqb "000" c = false ∧ nul_free s.
Proof.
  unfold nul_free. cbn [Contains]. rewrite HasPrefix_NUL.
  by intros [? ?]%orb_false_iff.
Qed.

(** A piece without a NUL byte is a field of its own. *)
Lemma split_field (a cur rest : string) :
  nul_free a →
  split_from NUL 0 cur (a ++ NUL ++ rest)
  = (cur ++ a)%string :: split_from NUL 0 EmptyString rest.
Proof.
  revert cur. induction a as [|c a IH]; intros cur Ha.
  - change (EmptyString ++ NUL ++ rest)%string with (String "000" rest).
    cbn [split_from]. rewrite HasPrefix_NUL, Ascii.eqb_refl.
    by rewrite append_empty.
  - apply nul_free_cons in Ha as [Hc Ha].
    change (String c a ++ NUL ++ rest)%string with (String c (a ++ NUL ++ rest)).
    cbn [split_from]. rewrite HasPrefix_NUL, Hc.
    rewrite (IH _ Ha). by rewrite append_snoc.
Qed.

Lemma split_last_field (a cur : string) :
  nul_free a → split_from NUL 0 cur a = [(cur ++ a)%string].
Proof.
  revert cur. induction a as [|c a IH]; intros cur Ha.
  - by rewrite append_empty.
  - apply nul_free_cons in Ha as [Hc Ha].
    cbn [split_from]. rewrite HasPrefix_NUL, Hc.
    rewrite (IH _ Ha). by rewrite append_snoc.
Qed.

Lemma Contains_append_NUL (a rest : string) :
  Contains (a ++ NUL ++ rest) NUL = true.
Proof.
  induction a as [|c a IH].
  - change (EmptyString ++ NUL ++ rest)%string with (String "000" rest).
    cbn [Contains]. by rewrite HasPrefix_NUL, Ascii.eqb_refl.
  - change (String c a ++ NUL ++ rest)%string with (String c (a ++ NUL ++ rest)).
    cbn [Contains]. rewrite IH. apply orb_true_r.
Qed.

(** The NUL-separated format, field by field. *)
Lemma parseCookie_nul_fields (host field tail : string) :
  nul_free host → nul_free field →
  tail = EmptyString ∨ (∃ rest, tail = (NUL ++ rest)%string) →
  parseCookie (host ++ NUL ++ field ++ tail) = (host, (Atoi field).1).
Proof.
  intros Hh Hf Htail. unfold parseCookie.
  rewrite Contains_append_NUL. unfold Split.
  rewrite (split_field host EmptyString _ Hh).
  change (EmptyString ++ host)%string with host.
  destruct Htail as [-> | [rest ->]].
  - rewrite append_empty, (split_last_field field EmptyString Hf).
    change (EmptyString ++ field)%string with field. done.
  - rewrite (split_field field EmptyString rest Hf).
    change (EmptyString ++ field)%string with field.
    destruct (split_from NUL 0 EmptyString rest); done.
Qed.

(** Decimal digits, written and read. *)
Lemma digit_char (d : N) : (d < 10)%N → digit (pretty_N_char d) = Some (Z.of_N d).
Proof.
  intros Hd.
  assert (H : (d = 0 ∨ d = 1 ∨ d = 2 ∨ d = 3 ∨ d = 4 ∨ d = 5 ∨ d = 6 ∨ d = 7
               ∨ d = 8 ∨ d = 9)%N) by lia.
  repeat (destruct H as [-> | H]; [done|]). by subst.
Qed.

Lemma digits_pretty_go (x : N) :
  ∃ k : nat, ∀ acc s,
    digits acc (pretty_N_go x s) = digits (acc * 10 ^ Z.of_nat k + Z.of_N x) s.
Proof.
  induction (N.lt_wf_0 x) as [x _ IH].
  destruct (decide (x = 0)%N) as [-> | Hx].
  - exists 0%nat. intros acc s. rewrite pretty_N_go_0. f_equal. simpl. lia.
  - assert (Hpos : (0 < x)%N) by lia.
    destruct (IH (x `div` 10)%N) as [k Hk]; [by apply N.div_lt|].
    exists (S k). intros acc s.
    rewrite pretty_N_go_step, Hk by done. cbn [digits].
    rewrite digit_char by (by apply N.mod_lt).
    f_equal. rewrite Nat2Z.inj_succ, Z.pow_succ_r by lia.
    pose proof (N.div_mod x 10 ltac:(done)) as Hdm. lia.
Qed.

Lemma digits_pretty (x : N) : digits 0 (pretty_N_go x EmptyString) = Some (Z.of_N x).
Proof.
  destruct (digits_pretty_go x) as [k Hk]. rewrite Hk. cbn [digits]. f_equal; lia.
Qed.

(** A string of digits has no sign in front and no NUL byte. *)
Lemma digit_no_sign (c : ascii) (d : Z) (s : string) :
  digit c = Some d →
  match String c s with
  | String "-" s' => (true, s')
  | String "+" s' => (false, s')
  | _ => (false, String c s)
  end = (false, String c s).
Proof.
  destruct c as [[] [] [] [] [] [] [] []]; intros H; try reflexivity;
    vm_compute in H; discriminate.
Qed.

Lemma digit_not_NUL (c : ascii) (d : Z) : digit c = Some d → Ascii.eqb "000" c = false.
Proof.
  destruct c as [[] [] [] [] [] [] [] []]; intros H; try reflexivity;
    vm_compute in H; discriminate.
Qed.

Lemma digits_nul_free (s : string) (acc un : Z) : digits acc s = Some un → nul_free s.
Proof.
  unfold nul_free. revert acc. induction s as [|c s IH]; intros acc H; [done|].
  cbn [digits] in H. destruct (digit c) as [d|] eqn:Hd; [|done].
  cbn [Contains]. rewrite HasPrefix_NUL, (digit_not_NUL c d Hd).
  by apply IH in H.
Qed.

(** [strconv.Atoi] reads back what [%d] prints, for every 64-bit integer. *)
Lemma Atoi_pretty (z : Z) :
  MinInt64 ≤ z ≤ MaxInt64 → Atoi (pretty z) = (z, None).
Proof.
  intros Hz. destruct z as [|p|p].
  - reflexivity.
  - change (pretty (Z.pos p)) with (pretty_N_go (N.pos p) EmptyString).
    pose proof (digits_pretty (N.pos p)) as Hd.
    destruct (pretty_N_go (N.pos p) EmptyString) as [|c s] eqn:E; [cbn in Hd; discriminate Hd|].
    unfold Atoi.
    assert (Hc : ∃ d, digit c = Some d).
    { cbn [digits] in Hd. destruct (digit c); [by eexists|done]. }
    destruct Hc as [d Hc]. rewrite (digit_no_sign c d s Hc), Hd.
    cbn [negb andb N2Z.inj_pos]. change (Z.of_N (N.pos p)) with (Z.pos p).
    destruct (Z.ltb_spec MaxInt64 (Z.pos p)); [lia|done].
  - change (pretty (Z.neg p)) with (String "-" (pretty_N_go (N.pos p) EmptyString)).
    pose proof (digits_pretty (N.pos p)) as Hd.
    unfold Atoi.
    destruct (pretty_N_go (N.pos p) EmptyString) as [|c s] eqn:E; [cbn in Hd; discriminate Hd|].
    rewrite Hd. cbn [negb andb]. change (Z.of_N (N.pos p)) with (Z.pos p).
    destruct (Z.ltb_spec (- MinInt64) (Z.pos p)); [unfold MinInt64 in *; lia|done].
Qed.

Lemma pretty_nul_free (z : Z) : nul_free (pretty z).
Proof.
  destruct z as [|p|p].
  - reflexivity.
  - change (pretty (Z.pos p)) with (pretty_N_go (N.pos p) EmptyString).
    eapply digits_nul_free, digits_pretty.
  - change (pretty (Z.neg p)) with (String "-" (pretty_N_go (N.pos p) EmptyString)).
    unfold nul_free. cbn [Contains]. rewrite HasPrefix_NUL.
    change (Ascii.eqb "000" "-") with false. cbn [orb].
    eapply digits_nul_free, digits_pretty.
Qed.

(** X17.  A cookie in the NUL-separated format is read back as it was
    written: for every host name without a NUL byte (blanks and dashes
    are its own) and every 64-bit process id printed in decimal,
    followed by nothing or by a NUL byte and anything, the host name and
    the process id parsed are the ones written; and /proc/<pid> for
    the process id parsed is the path named by the field. *)
Theorem parseCookie_roundtrip (host tail : string) (pid : Z) :
  nul_free host →
  MinInt64 ≤ pid ≤ MaxInt64 →
  tail = EmptyString ∨ (∃ rest, tail = (NUL ++ rest)%string) →
  parseCookie (host ++ NUL ++ pretty pid ++ tail) = (host, pid) ∧
  procPath (parseCookie (host ++ NUL ++ pretty pid ++ tail)).2 = ["proc"; pretty pid].
Proof.
  intros Hh Hp Htail.
  rewrite (parseCookie_nul_fields host (pretty pid) tail Hh (pretty_nul_free pid) Htail).
  by rewrite (Atoi_pretty pid Hp).
Qed.

(** A host name with a blank and dashes, and process 4242. *)
Lemma parseCookie_roundtrip_witness :
  parseCookie (cookie "my host-a-1" "4242") = ("my host-a-1", 4242).
Proof.
  apply (parseCookie_roundtrip "my host-a-1" NUL 4242).
  - reflexivity.
  - by vm_compute.
  - right. by exists EmptyString.
Defined.

End ParseMore.
